(** * awstail: CloudWatch log tailing with an interactive filter

    A shallow embedding of [src/index.ts] and the properties its
    specification states about it.

    Conventions of the embedding.
    - A JavaScript string is a sequence of code units; the model uses
      [string], whose characters are the code units below 256 (Latin-1).
    - A JavaScript number holding an instant or a duration in milliseconds
      is an integer; the model uses [Z], which agrees with double
      arithmetic on the safe-integer range. The lookback, read from a
      string of any length, can leave that range: it is a [JSNumber],
      rounded as a double is.
    - [undefined] is [None].
    - A thrown [Error] is the [Err] branch of [result]. *)

From Stdlib Require Import String Ascii List ZArith Lia Bool Arith Permutation.
Import ListNotations.

Open Scope string_scope.

(** ** Strings *)

Module Str.

(** Code unit of a character ([charCodeAt]). *)
Definition code (c : ascii) : nat := nat_of_ascii c.

(** [lo <= c <= hi] on code units: a character range [[lo-hi]] of a
    regular expression. *)
Definition in_range (lo hi c : ascii) : bool :=
  Ascii.leb lo c && Ascii.leb c hi.

(** [s.startsWith(p)], also a literal of a regular expression matched at
    the current position: the rest after [p], if [p] starts [s]. *)
Fixpoint strip_prefix (p s : string) : option string :=
  match p, s with
  | EmptyString, _ => Some s
  | String a p', String b s' =>
      if Ascii.eqb a b then strip_prefix p' s' else None
  | String _ _, EmptyString => None
  end.

Definition startsWith (s p : string) : bool :=
  match strip_prefix p s with Some _ => true | None => false end.

(** [s.includes(sub)]: some position of [s] (the end included) starts
    with [sub]. *)
Fixpoint includes (s sub : string) : bool :=
  startsWith s sub ||
  match s with
  | EmptyString => false
  | String _ s' => includes s' sub
  end.

(** Case mapping of one code unit below 256: the ASCII capitals and the
    Latin-1 capitals (all of U+00C0..U+00DE but the multiplication sign)
    move up by 32. *)
Definition is_upper (c : ascii) : bool :=
  in_range "A" "Z" c ||
  ((192 <=? code c)%nat && (code c <=? 222)%nat && negb (code c =? 215)%nat).

Definition lower_char (c : ascii) : ascii :=
  if is_upper c then ascii_of_nat (code c + 32) else c.

(** [s.toLowerCase()]. *)
Fixpoint toLowerCase (s : string) : string :=
  match s with
  | EmptyString => EmptyString
  | String c s' => String (lower_char c) (toLowerCase s')
  end.

(** [s.slice(0, n)] for [n >= 0]: the first [n] code units, all of [s]
    when it is shorter. *)
Fixpoint take (n : nat) (s : string) : string :=
  match n, s with
  | O, _ => EmptyString
  | S _, EmptyString => EmptyString
  | S n', String c s' => String c (take n' s')
  end.

(** [s.slice(0, -1)]: [s] without its last code unit. *)
Definition drop_last (s : string) : string := take (String.length s - 1) s.

(** Greedy run of a character class at the start of [s]: the run and
    what follows it. *)
Fixpoint span (p : ascii -> bool) (s : string) : string * string :=
  match s with
  | EmptyString => (EmptyString, EmptyString)
  | String c s' =>
      if p c then let (r, t) := span p s' in (String c r, t)
      else (EmptyString, s)
  end.

(** Exactly [n] characters of a class at the start of [s] (the
    quantifier [{n}]). *)
Fixpoint take_class (n : nat) (p : ascii -> bool) (s : string)
  : option (string * string) :=
  match n, s with
  | O, _ => Some (EmptyString, s)
  | S _, EmptyString => None
  | S n', String c s' =>
      if p c then
        match take_class n' p s' with
        | Some (r, t) => Some (String c r, t)
        | None => None
        end
      else None
  end.

(** Every character of [s] satisfies [p]. *)
Fixpoint all (p : ascii -> bool) (s : string) : bool :=
  match s with
  | EmptyString => true
  | String c s' => p c && all p s'
  end.

(** Leftmost search of an unanchored regular expression: [m] is the
    match at one position, tried at every position from the left, the end
    of the string included. *)
Fixpoint search {A : Type} (m : string -> option A) (s : string) : option A :=
  match m s with
  | Some r => Some r
  | None =>
      match s with
      | EmptyString => None
      | String _ s' => search m s'
      end
  end.

(** What follows a greedy run of the class [p]: nothing, or a character
    outside the class. *)
Definition stops (p : ascii -> bool) (rest : string) : Prop :=
  match rest with
  | EmptyString => True
  | String c _ => p c = false
  end.

(** [sub] occurs in [s]. *)
Definition contains (s sub : string) : Prop :=
  exists pre post, s = pre ++ sub ++ post.

End Str.

(** ** Errors *)

(** A call that returns a value or throws [new Error(message)]. *)
Inductive result (A : Type) : Type :=
| Ok (value : A)
| Err (message : string).
Arguments Ok {A} value.
Arguments Err {A} message.

(** ** ANSI color codes *)

Module colors.
Definition ESC : string := String (ascii_of_nat 27) "".
Definition reset : string := ESC ++ "[0m".
Definition dim : string := ESC ++ "[2m".
Definition gray : string := ESC ++ "[90m".
Definition bright : string := ESC ++ "[1m".
Definition red : string := ESC ++ "[31m".
Definition green : string := ESC ++ "[32m".
Definition yellow : string := ESC ++ "[33m".
Definition blue : string := ESC ++ "[34m".
Definition magenta : string := ESC ++ "[35m".
Definition cyan : string := ESC ++ "[36m".
Definition white : string := ESC ++ "[37m".
Definition orange : string := ESC ++ "[38;5;214m".
End colors.

(** ** The interactive filter *)

(** [interface FilterState]. *)
Record FilterState : Type := mkFilterState {
  pattern : string;
  isActive : bool
}.

Module InteractiveFilter.

(** The field initialiser [{ pattern: "", isActive: false }]. *)
Definition initial : FilterState :=
  {| pattern := ""; isActive := false |}.

(** What one method call leaves behind: the filter state and the chunks
    it wrote to standard output, in order. *)
Definition Effect : Type := FilterState * list string.

(** [updateStatusLine]: erase the line, then show the pattern when the
    filter is active. *)
Definition updateStatusLine (fs : FilterState) : list string :=
  let CR := String (ascii_of_nat 13) "" in
  (CR ++ colors.ESC ++ "[K") ::
  (if isActive fs
   then [colors.gray ++ colors.dim ++ "filter: " ++ pattern fs ++ colors.reset]
   else []).

Definition addToFilter (char : string) (fs : FilterState) : Effect :=
  let fs1 := {| pattern := pattern fs ++ char; isActive := isActive fs |} in
  let fs2 := {| pattern := pattern fs1; isActive := true |} in
  (fs2, updateStatusLine fs2).

Definition handleBackspace (fs : FilterState) : Effect :=
  if (0 <? String.length (pattern fs))%nat then
    let fs1 := {| pattern := Str.drop_last (pattern fs);
                  isActive := isActive fs |} in
    let fs2 := if (String.length (pattern fs1) =? 0)%nat
               then {| pattern := pattern fs1; isActive := false |}
               else fs1 in
    (fs2, updateStatusLine fs2)
  else (fs, []).

(** "For now, same as backspace". *)
Definition handleDelete (fs : FilterState) : Effect := handleBackspace fs.

Definition clearFilter (fs : FilterState) : Effect :=
  let fs2 := {| pattern := ""; isActive := false |} in
  (fs2, updateStatusLine fs2).

(** What a key press does to the process. *)
Inductive KeyOutcome : Type :=
| Exited (status : Z)
| Handled (e : Effect).

(** [handleKeyPress], on [keyStr = key.toString()]. *)
Definition handleKeyPress (keyStr : string) (fs : FilterState) : KeyOutcome :=
  if keyStr =? String (ascii_of_nat 3) "" then
    Exited 0
  else if (keyStr =? String (ascii_of_nat 127) "")
          || (keyStr =? String (ascii_of_nat 8) "") then
    Handled (handleBackspace fs)
  else if keyStr =? colors.ESC ++ "[3~" then
    Handled (handleDelete fs)
  else if keyStr =? colors.ESC then
    Handled (clearFilter fs)
  else if (String.length keyStr =? 1)%nat
          && String.leb " " keyStr && String.leb keyStr "~" then
    Handled (addToFilter keyStr fs)
  else Handled (fs, []).

(** The listener over a sequence of key presses: the state after the
    last one handled and everything written; a Ctrl+C ends the process
    and the keys after it are never seen. *)
Fixpoint handleKeys (keys : list string) (fs : FilterState)
  : FilterState * list string * option Z :=
  match keys with
  | [] => (fs, [], None)
  | k :: keys' =>
      match handleKeyPress k fs with
      | Exited status => (fs, [], Some status)
      | Handled (fs', out) =>
          let '(fs'', out', st) := handleKeys keys' fs' in
          (fs'', (out ++ out')%list, st)
      end
  end.

Definition shouldDimLine (fs : FilterState) (message : string) : bool :=
  if negb (isActive fs) || (pattern fs =? "") then false
  else negb (Str.includes (Str.toLowerCase message)
                          (Str.toLowerCase (pattern fs))).

Definition getFilterPattern (fs : FilterState) : string := pattern fs.
Definition isFilterActive (fs : FilterState) : bool := isActive fs.

End InteractiveFilter.

(** ** Lookback parsing *)

(** [keyof typeof multipliers]. *)
Inductive TimeUnit : Type := unit_s | unit_m | unit_h | unit_d.

Definition is_digit (c : ascii) : bool := Str.in_range "0" "9" c.

(** The class [[smhd]] with the key it stands for. *)
Definition unit_of_char (c : ascii) : option TimeUnit :=
  if Ascii.eqb c "s" then Some unit_s
  else if Ascii.eqb c "m" then Some unit_m
  else if Ascii.eqb c "h" then Some unit_h
  else if Ascii.eqb c "d" then Some unit_d
  else None.

(** [timeStr.match(/^(\d+)([smhd])$/)]: the two groups of the match. The
    greedy run of digits is the only candidate for group 1, as no digit is
    in [[smhd]]. *)
Definition match_time (timeStr : string) : option (string * TimeUnit) :=
  let (amount, rest) := Str.span is_digit timeStr in
  match amount, rest with
  | String _ _, String u EmptyString =>
      match unit_of_char u with
      | Some unit => Some (amount, unit)
      | None => None
      end
  | _, _ => None
  end.

(** A number that arithmetic on integers of any size produces: a double
    that holds an integer, or an infinity. *)
Inductive JSNumber : Type :=
| Finite (z : Z)
| PosInfinity
| NegInfinity.

(** Every integer below [2^53] in size is a double; the doubles end below
    [2^1024]. *)
Definition TWO_53 : Z := 9007199254740992.
Definition DOUBLE_LIMIT : Z := 2 ^ 1024.

(** The double nearest to the integer [z >= 0], a tie going to the even
    significand: [z] itself below [2^53]; above, [z] cut to its 53 leading
    bits, [e] being the number of bits cut off. *)
Definition round_nonneg (z : Z) : Z :=
  if (z <? TWO_53)%Z then z
  else
    let e := (Z.log2 z - 52)%Z in
    let q := (z / 2 ^ e)%Z in
    let r := (z mod 2 ^ e)%Z in
    let half := (2 ^ (e - 1))%Z in
    let q' := if (r <? half)%Z then q
              else if (half <? r)%Z then (q + 1)%Z
              else if Z.even q then q else (q + 1)%Z in
    (q' * 2 ^ e)%Z.

(** The Number value for the mathematical integer [z]: round to nearest,
    ties to even, and an infinity from [2^1024] on. *)
Definition to_double (z : Z) : JSNumber :=
  if (0 <=? z)%Z then
    let v := round_nonneg z in
    if (v <? DOUBLE_LIMIT)%Z then Finite v else PosInfinity
  else
    let v := round_nonneg (- z) in
    if (v <? DOUBLE_LIMIT)%Z then Finite (- v) else NegInfinity.

(** [a * m] for an integer [m > 0]. *)
Definition Number_times (a : JSNumber) (m : Z) : JSNumber :=
  match a with
  | Finite z => to_double (z * m)
  | PosInfinity => PosInfinity
  | NegInfinity => NegInfinity
  end.

(** [a - b] for an integer [a]. *)
Definition Number_minus (a : Z) (b : JSNumber) : JSNumber :=
  match b with
  | Finite z => to_double (a - z)
  | PosInfinity => NegInfinity
  | NegInfinity => PosInfinity
  end.

Definition digit_value (c : ascii) : Z := Z.of_nat (Str.code c - Str.code "0").

(** The mathematical integer that a run of decimal digits writes. *)
Definition digits_value (amount : string) : Z :=
  (fix go (acc : Z) (s : string) : Z :=
     match s with
     | EmptyString => acc
     | String c s' => go (acc * 10 + digit_value c)%Z s'
     end) 0%Z amount.

(** [Number.parseInt(amount, 10)] on a run of decimal digits: the Number
    value for the integer the digits write (an engine may read the digits
    after the twentieth as zeros; that changes nothing below [10^20]). *)
Definition parseInt10 (amount : string) : JSNumber :=
  to_double (digits_value amount).

Definition multipliers (unit : TimeUnit) : Z :=
  match unit with
  | unit_s => 1000
  | unit_m => 60 * 1000
  | unit_h => 60 * 60 * 1000
  | unit_d => 24 * 60 * 60 * 1000
  end%Z.

Definition invalid_time_format (timeStr : string) : string :=
  "Invalid time format: " ++ timeStr ++ ". Use formats like: 10s, 22m, 2h, 1d".

(** Parse time format like 10s, 22m, 2h, 1d into milliseconds. *)
Definition parseTimeFormat (timeStr : string) : result JSNumber :=
  match match_time timeStr with
  | None => Err (invalid_time_format timeStr)
  | Some (amount, unit) =>
      let num := parseInt10 amount in
      Ok (Number_times num (multipliers unit))
  end.

(** The part of [main] that turns [--since] into the start time, at the
    instant [now = Date.now()], an integer: the start time, or the line
    written to standard error and the exit status. *)
Inductive SinceOutcome : Type :=
| StartAt (startTime : JSNumber)
| ExitWith (status : Z) (stderr : string).

Definition main_since (now : Z) (since : string) : SinceOutcome :=
  match parseTimeFormat since with
  | Ok sinceMs => StartAt (Number_minus now sinceMs)
  | Err message => ExitWith 1 ("Error parsing --since: " ++ message)
  end.

(** ** The line formatter's extractors *)

Definition is_hex (c : ascii) : bool :=
  Str.in_range "a" "f" c || Str.in_range "0" "9" c.

(** The class [[a-f0-9-]]. *)
Definition is_id_char (c : ascii) : bool := is_hex c || Ascii.eqb c "-".

(** [/RequestId: ([a-f0-9-]+)/] at one position: group 1. *)
Definition match_RequestId_at (s : string) : option string :=
  match Str.strip_prefix "RequestId: " s with
  | Some rest =>
      match fst (Str.span is_id_char rest) with
      | EmptyString => None
      | id => Some id
      end
  | None => None
  end.

(** [/([a-f0-9]{8}-[a-f0-9]{4}-[a-f0-9]{4}-[a-f0-9]{4}-[a-f0-9]{12})/] at
    one position: group 1. *)
Definition match_uuid_at (s : string) : option string :=
  match Str.take_class 8 is_hex s with
  | None => None
  | Some (g1, s1) =>
  match Str.strip_prefix "-" s1 with
  | None => None
  | Some s2 =>
  match Str.take_class 4 is_hex s2 with
  | None => None
  | Some (g2, s3) =>
  match Str.strip_prefix "-" s3 with
  | None => None
  | Some s4 =>
  match Str.take_class 4 is_hex s4 with
  | None => None
  | Some (g3, s5) =>
  match Str.strip_prefix "-" s5 with
  | None => None
  | Some s6 =>
  match Str.take_class 4 is_hex s6 with
  | None => None
  | Some (g4, s7) =>
  match Str.strip_prefix "-" s7 with
  | None => None
  | Some s8 =>
  match Str.take_class 12 is_hex s8 with
  | None => None
  | Some (g5, _) =>
      Some (g1 ++ "-" ++ g2 ++ "-" ++ g3 ++ "-" ++ g4 ++ "-" ++ g5)
  end end end end end end end end end.

(** Extract request ID from log message. *)
Definition extractRequestId (message : string) : string :=
  match Str.search match_RequestId_at message with
  | Some id => Str.take 6 id
  | None =>
      match Str.search match_uuid_at message with
      | Some uuid => Str.take 6 uuid
      | None => "------"
      end
  end.

(** Extract log level from message. *)
Definition extractLogLevel (message : string) : string :=
  if Str.includes message "ERROR" then "ERR"
  else if Str.includes message "WARN" then "WRN"
  else if Str.includes message "INFO" then "INF"
  else if Str.includes message "DEBUG" then "DBG"
  else if Str.includes message "START RequestId:" then "STR"
  else if Str.includes message "END RequestId:" then "END"
  else if Str.includes message "REPORT RequestId:" then "RPT"
  else if Str.includes message "INIT_START" then "INI"
  else "   ".

(** ** The log source *)

(** [FilteredLogEvent], with the two fields the program reads. *)
Record FilteredLogEvent : Type := mkEvent {
  timestamp : option Z;
  message : option string
}.

Record FilterLogEventsCommandInput : Type := mkInput {
  logGroupName : string;
  interleaved : bool;
  startTime : Z;
  filterPattern : option string;
  limit : Z;
  nextToken : option string
}.

(** The response fields the program reads. *)
Record FilterLogEventsResponse : Type := mkResponse {
  events : option (list FilteredLogEvent);
  response_nextToken : option string
}.

(** The client over the state [W] of the service: [send] answers one
    [FilterLogEventsCommand] or throws, and moves the service on. *)
Record CloudWatchLogsClient (W : Type) : Type := mkClient {
  send : FilterLogEventsCommandInput -> W ->
         result FilterLogEventsResponse * W
}.
Arguments send {W} _ _ _.

(** Truthiness of a [string | undefined]. *)
Definition truthy (s : option string) : bool :=
  match s with
  | Some t => negb (t =? "")
  | None => false
  end.

(** [o ?? d]. *)
Definition nullish_or {A : Type} (o : option A) (d : A) : A :=
  match o with
  | Some a => a
  | None => d
  end.

(** [e.timestamp ?? 0]. *)
Definition timestamp_or_0 (e : FilteredLogEvent) : Z :=
  nullish_or (timestamp e) 0%Z.

(** [Math.max(x, ...xs)]. *)
Definition Math_max (x : Z) (xs : list Z) : Z := fold_left Z.max xs x.

(** *** Bounded fetch *)

Inductive FetchOutcome (W : Type) : Type :=
| Fetched (evs : list FilteredLogEvent) (w : W)
| Thrown (message : string) (w : W)
| OutOfFuel.
Arguments Fetched {W} evs w.
Arguments Thrown {W} message w.
Arguments OutOfFuel {W}.

Section Fetch.
Context {W : Type} (client : CloudWatchLogsClient W).
Variables (logGroup : string) (filter : option string) (start : Z).

(** The [do ... while (nextToken)] loop of [fetchLogs]; [fuel] bounds the
    number of requests. *)
Fixpoint fetchLogs_loop (fuel : nat) (acc : list FilteredLogEvent)
    (token : option string) (w : W) : FetchOutcome W :=
  match fuel with
  | O => OutOfFuel
  | S fuel' =>
      let params := {| logGroupName := logGroup; interleaved := true;
                       startTime := start; filterPattern := filter;
                       limit := 10000; nextToken := token |} in
      match send client params w with
      | (Err e, w') => Thrown e w'
      | (Ok response, w') =>
          let acc' :=
            match events response with
            | Some (ev :: evs) => (acc ++ ev :: evs)%list
            | _ => acc
            end in
          let token' := response_nextToken response in
          if truthy token' then fetchLogs_loop fuel' acc' token' w'
          else Fetched acc' w'
      end
  end.

(** Fetch logs once from CloudWatch. *)
Definition fetchLogs (fuel : nat) (w : W) : FetchOutcome W :=
  fetchLogs_loop fuel [] None w.
End Fetch.

(** *** Streaming fetch *)

(** What the generator does that the outside can see: a request sent, an
    event handed to the consumer (with the value [currentStartTime] has at
    that moment), a sleep. *)
Inductive Action : Type :=
| ASend (params : FilterLogEventsCommandInput)
| AYield (event : FilteredLogEvent) (cursor : Z)
| ASleep (ms : Z).

(** The generator's variable and the service it talks to. *)
Record GenState (W : Type) : Type := mkGen {
  currentStartTime : Z;
  world : W
}.
Arguments mkGen {W} _ _.
Arguments currentStartTime {W} _.
Arguments world {W} _.

(** Computations of the generator: they log their actions, and either
    finish with a value and a state or throw. *)
Definition Gen (W A : Type) : Type :=
  GenState W -> list Action * result (A * GenState W).

Definition ret {W A} (a : A) : Gen W A := fun s => ([], Ok (a, s)).

Definition bind {W A B} (m : Gen W A) (f : A -> Gen W B) : Gen W B :=
  fun s =>
    match m s with
    | (t1, Ok (a, s1)) => let (t2, r) := f a s1 in ((t1 ++ t2)%list, r)
    | (t1, Err e) => (t1, Err e)
    end.

Notation "x <- m ;; k" := (bind m (fun x => k))
  (at level 61, m at next level, right associativity).
Notation "m ;; k" := (bind m (fun _ => k))
  (at level 61, right associativity).

Definition read_cursor {W} : Gen W Z :=
  fun s => ([], Ok (currentStartTime s, s)).

Definition write_cursor {W} (c : Z) : Gen W unit :=
  fun s => ([], Ok (tt, mkGen c (world s))).

Definition await_send {W} (client : CloudWatchLogsClient W)
    (params : FilterLogEventsCommandInput) : Gen W FilterLogEventsResponse :=
  fun s =>
    match send client params (world s) with
    | (Ok response, w') => ([ASend params], Ok (response, mkGen (currentStartTime s) w'))
    | (Err e, _) => ([ASend params], Err e)
    end.

Definition yield {W} (event : FilteredLogEvent) : Gen W unit :=
  fun s => ([AYield event (currentStartTime s)], Ok (tt, s)).

Definition sleep {W} (ms : Z) : Gen W unit :=
  fun s => ([ASleep ms], Ok (tt, s)).

(** [for (const x of xs) body(x)]. *)
Fixpoint for_of {W A} (xs : list A) (body : A -> Gen W unit) : Gen W unit :=
  match xs with
  | [] => ret tt
  | x :: xs' => body x ;; for_of xs' body
  end.

Section Stream.
Context {W : Type} (client : CloudWatchLogsClient W).
Variables (logGroup : string) (filter : option string) (pollMs : Z).

(** One turn of the [while (true)] loop of [streamLogs]. *)
Definition streamLogs_iteration : Gen W unit :=
  cur <- read_cursor ;;
  response <- await_send client
    {| logGroupName := logGroup; interleaved := true; startTime := cur;
       filterPattern := filter; limit := 10000; nextToken := None |} ;;
  match events response with
  | Some (ev :: evs) =>
      write_cursor
        (Math_max (timestamp_or_0 ev) (map timestamp_or_0 evs) + 1)%Z ;;
      for_of (ev :: evs) yield
  | _ => ret tt
  end ;;
  sleep pollMs.

(** The first [n] turns of the loop. *)
Fixpoint streamLogs_turns (n : nat) : Gen W unit :=
  match n with
  | O => ret tt
  | S n' => streamLogs_iteration ;; streamLogs_turns n'
  end.

(** Stream new logs continuously: the generator, started at [start] and
    driven for [n] turns of its loop. *)
Definition streamLogs (start : Z) (n : nat) (w : W)
  : list Action * result (unit * GenState W) :=
  streamLogs_turns n (mkGen start w).
End Stream.

(** ** Vocabulary of the specification *)

Module Spec.

(** [m] is the greatest element of [xs]. *)
Definition maximum_of (xs : list Z) (m : Z) : Prop :=
  In m xs /\ forall x, In x xs -> (x <= m)%Z.

(** The events a response page carries. *)
Definition page_events (r : FilterLogEventsResponse) : list FilteredLogEvent :=
  match events r with
  | Some evs => evs
  | None => []
  end.

(** The request of the bounded fetch that carries [token]. *)
Definition page_request (logGroup : string) (filter : option string)
    (start : Z) (token : option string) : FilterLogEventsCommandInput :=
  {| logGroupName := logGroup; interleaved := true; startTime := start;
     filterPattern := filter; limit := 10000; nextToken := token |}.

(** The request of a poll at the cursor [cur]. *)
Definition poll_request (logGroup : string) (filter : option string)
    (cur : Z) : FilterLogEventsCommandInput :=
  page_request logGroup filter cur None.

(** A finite chain of pages: asked with [token] in the state [w], the
    source answers with the pages [pages], one request each, every page
    but the last carrying the continuation token of the next request and
    the last carrying none; the source is left in [w']. *)
Inductive page_chain {W : Type} (client : CloudWatchLogsClient W)
    (logGroup : string) (filter : option string) (start : Z)
  : option string -> W -> list FilterLogEventsResponse -> W -> Prop :=
| chain_last token w r w' :
    send client (page_request logGroup filter start token) w = (Ok r, w') ->
    response_nextToken r = None ->
    page_chain client logGroup filter start token w [r] w'
| chain_next token w r w1 t pages w' :
    send client (page_request logGroup filter start token) w = (Ok r, w1) ->
    response_nextToken r = Some t ->
    t <> "" ->
    page_chain client logGroup filter start (Some t) w1 pages w' ->
    page_chain client logGroup filter start token w (r :: pages) w'.

(** The source honours the start time of a poll on the batch [batch]:
    some event of the batch is not older than the start time asked for. *)
Definition reaches (cur : Z) (batch : list FilteredLogEvent) : Prop :=
  exists e t, In e batch /\ timestamp e = Some t /\ (cur <= t)%Z.

(** Every non-empty batch the source returns to a poll reaches the start
    time of that poll. *)
Definition honours_startTime {W : Type} (client : CloudWatchLogsClient W)
  : Prop :=
  forall params w r w' ev evs,
    send client params w = (Ok r, w') ->
    events r = Some (ev :: evs) ->
    reaches (startTime params) (ev :: evs).

(** The events handed downstream in a trace, in order. *)
Fixpoint yielded (t : list Action) : list FilteredLogEvent :=
  match t with
  | [] => []
  | AYield e _ :: t' => e :: yielded t'
  | _ :: t' => yielded t'
  end.

(** The capital letters among the code units below 256, each with its
    small letter: A to Z, and the Latin-1 capitals U+00C0 to U+00DE without
    the multiplication sign U+00D7. *)
Definition case_pairs : list (ascii * ascii) :=
  (combine (list_ascii_of_string "ABCDEFGHIJKLMNOPQRSTUVWXYZ")
           (list_ascii_of_string "abcdefghijklmnopqrstuvwxyz")
   ++ map (fun n => (ascii_of_nat n, ascii_of_nat (n + 32)))
        (seq 192 23 ++ seq 216 7))%list.

(** Two characters that are the same letter, whatever their case. *)
Definition same_letter (c d : ascii) : Prop :=
  c = d \/ In (c, d) case_pairs \/ In (d, c) case_pairs.

(** Two strings equal up to the case of their letters. *)
Inductive eq_ci : string -> string -> Prop :=
| eq_ci_nil : eq_ci "" ""
| eq_ci_cons c d s t :
    same_letter c d -> eq_ci s t ->
    eq_ci (String c s) (String d t).

(** [s] contains [sub] as a case-insensitive substring. *)
Definition contains_ci (s sub : string) : Prop :=
  exists pre mid post, s = pre ++ mid ++ post /\ eq_ci mid sub.

(** The markers of the level classifier with their tags, in priority
    order. *)
Definition level_table : list (string * string) :=
  [ ("ERROR", "ERR"); ("WARN", "WRN"); ("INFO", "INF"); ("DEBUG", "DBG");
    ("START RequestId:", "STR"); ("END RequestId:", "END");
    ("REPORT RequestId:", "RPT"); ("INIT_START", "INI") ].

Definition blank_tag : string := "   ".

(** [c] is one of the characters of [alphabet]. *)
Fixpoint member (alphabet : string) (c : ascii) : bool :=
  match alphabet with
  | EmptyString => false
  | String a alphabet' => Ascii.eqb a c || member alphabet' c
  end.

(** The lower-case hexadecimal digits, and the characters of an id. *)
Definition hex_digits : string := "0123456789abcdef".
Definition id_chars : string := "0123456789abcdef-".

(** [id] is an id: a non-empty run of lower-case hexadecimal digits and
    hyphens. *)
Definition is_id (id : string) : Prop :=
  id <> "" /\ Str.all (member id_chars) id = true.

(** [rest] does not go on with a character of an id. *)
Definition ends_id (rest : string) : Prop := Str.stops (member id_chars) rest.

(** [s] starts with the marker ["RequestId: "] and an id. *)
Definition marker_at (s : string) : Prop :=
  exists id rest, s = "RequestId: " ++ id ++ rest /\ is_id id.

(** [g] is [n] lower-case hexadecimal digits. *)
Definition hex_group (n : nat) (g : string) : Prop :=
  String.length g = n /\ Str.all (member hex_digits) g = true.

(** [u] has the shape of a UUID: groups of 8, 4, 4, 4 and 12 digits,
    hyphens between them. *)
Definition uuid_shaped (u : string) : Prop :=
  exists g1 g2 g3 g4 g5,
    u = g1 ++ "-" ++ g2 ++ "-" ++ g3 ++ "-" ++ g4 ++ "-" ++ g5 /\
    hex_group 8 g1 /\ hex_group 4 g2 /\ hex_group 4 g3 /\
    hex_group 4 g4 /\ hex_group 12 g5.

(** [s] starts with a UUID-shaped substring. *)
Definition uuid_at (s : string) : Prop :=
  exists u rest, s = u ++ rest /\ uuid_shaped u.

(** No suffix of [s] satisfies [P]. *)
Definition nowhere (P : string -> Prop) (s : string) : Prop :=
  forall pre suf, s = pre ++ suf -> ~ P suf.

(** No suffix of [pre ++ suf] that starts inside [pre] satisfies [P]:
    [suf] is the leftmost candidate. *)
Definition not_before (P : string -> Prop) (pre suf : string) : Prop :=
  forall p1 p2, pre = p1 ++ p2 -> p2 <> "" -> ~ P (p2 ++ suf).

Definition placeholder : string := "------".

(** [t] is the first [n] characters of [s], all of [s] when it has fewer. *)
Definition first_chars (n : nat) (s t : string) : Prop :=
  (exists rest, s = t ++ rest) /\
  String.length t = Nat.min n (String.length s).

(** The filter's activity flag is the non-emptiness of its pattern. *)
Definition flag_is_derived (fs : FilterState) : Prop :=
  isActive fs = negb (pattern fs =? "").

(** A printable character as a key: one code unit from the space to the
    tilde. *)
Definition printable (key : string) : Prop :=
  exists c, key = String c "" /\ Str.in_range " " "~" c = true.

(** The decimal digits, each at the place of its value. *)
Definition decimal_digits : string := "0123456789".

(** The place of [c] in [alphabet], counted from 0. *)
Fixpoint place (alphabet : string) (c : ascii) : nat :=
  match alphabet with
  | EmptyString => O
  | String a alphabet' => if Ascii.eqb a c then O else S (place alphabet' c)
  end.

(** The value of a decimal numeral. *)
Fixpoint decimal (ds : string) : Z :=
  match ds with
  | EmptyString => 0
  | String c ds' =>
      Z.of_nat (place decimal_digits c) * 10 ^ Z.of_nat (String.length ds')
      + decimal ds'
  end%Z.

(** [s] matches [^\d+[smhd]$] with the digits [ds] and the unit [u]. *)
Definition lookback (s ds : string) (u : ascii) : Prop :=
  s = ds ++ String u "" /\ ds <> "" /\
  Str.all (member decimal_digits) ds = true /\
  In u ["s"; "m"; "h"; "d"]%char.

(** The instants [Date.now()] can return: the time values, at most
    8.64e15 ms from the epoch on either side. *)
Definition time_value (T : Z) : Prop :=
  (- 8640000000000000 <= T <= 8640000000000000)%Z.

(** Milliseconds in one unit of a lookback. *)
Definition unit_ms (u : ascii) : Z :=
  if Ascii.eqb u "s" then 1000
  else if Ascii.eqb u "m" then 60000
  else if Ascii.eqb u "h" then 3600000
  else 86400000.

(** The greatest integer a double holds exactly with all those below. *)
Definition MAX_SAFE_INTEGER : Z := 9007199254740991.

End Spec.

(** ** Sources used in examples *)

Module Examples.

(** A source that plays back a script, one entry per request, and
    answers with an empty page once the script is over. *)
Definition scripted
  : CloudWatchLogsClient (list (result FilterLogEventsResponse)) :=
  {| send := fun _ w =>
       match w with
       | r :: w' => (r, w')
       | [] => (Ok {| events := None; response_nextToken := None |}, [])
       end |}.

(** A source that keeps its pages under their tokens: the first page
    under no token, the second under ["t1"], the third under ["t2"]. *)
Definition ev (t : Z) (m : string) : FilteredLogEvent :=
  {| timestamp := Some t; message := Some m |}.

Definition page1 : FilterLogEventsResponse :=
  {| events := Some [ev 30 "c"; ev 10 "a"]; response_nextToken := Some "t1" |}.
Definition page2 : FilterLogEventsResponse :=
  {| events := None; response_nextToken := Some "t2" |}.
Definition page3 : FilterLogEventsResponse :=
  {| events := Some [ev 20 "b"]; response_nextToken := None |}.

Definition paged : CloudWatchLogsClient unit :=
  {| send := fun params w =>
       match nextToken params with
       | None => (Ok page1, w)
       | Some t =>
           if t =? "t1" then (Ok page2, w)
           else if t =? "t2" then (Ok page3, w)
           else (Err "InvalidParameterException", w)
       end |}.

(** An event without a timestamp. *)
Definition untimed (m : string) : FilteredLogEvent :=
  {| timestamp := None; message := Some m |}.

(** A source that answers every poll with one fresh event, stamped with
    the start time asked for. *)
Definition ticking : CloudWatchLogsClient unit :=
  {| send := fun params w =>
       (Ok {| events := Some [ev (startTime params) "tick"];
              response_nextToken := None |}, w) |}.

End Examples.

(** ** Colors, dimming and the rest of [main] *)

(** White space of [String.prototype.trim] among the code units below
    256: TAB, LF, VT, FF, CR, the space and the no-break space. *)
Definition is_space (c : ascii) : bool :=
  let n := Str.code c in
  ((9 <=? n)%nat && (n <=? 13)%nat) || (n =? 32)%nat || (n =? 160)%nat.

Fixpoint trimStart (s : string) : string :=
  match s with
  | EmptyString => EmptyString
  | String c s' => if is_space c then trimStart s' else s
  end.

Fixpoint trimEnd (s : string) : string :=
  match s with
  | EmptyString => EmptyString
  | String c s' =>
      match trimEnd s' with
      | EmptyString => if is_space c then EmptyString else String c EmptyString
      | r => String c r
      end
  end.

(** [s.trim()]. *)
Definition trim (s : string) : string := trimEnd (trimStart s).

Definition colors_list : list string :=
  [colors.cyan; colors.green; colors.yellow; colors.magenta; colors.blue].

(** [requestId.split("").reduce((acc, char) => acc + char.charCodeAt(0), 0)]. *)
Fixpoint char_code_sum (acc : nat) (s : string) : nat :=
  match s with
  | EmptyString => acc
  | String c s' => char_code_sum (acc + Str.code c) s'
  end.

(** Get color for request ID (consistent per ID); [None] is the
    [undefined] of an index outside [colors_list]. *)
Definition getRequestIdColor (requestId : string) : option string :=
  let hash := char_code_sum 0 requestId in
  nth_error colors_list (hash mod List.length colors_list).

(** Get color for log level. *)
Definition getLogLevelColor (level : string) : string :=
  let l := trim level in
  if l =? "ERR" then colors.red
  else if l =? "WRN" then colors.yellow
  else if l =? "INF" then colors.green
  else if l =? "DBG" then colors.blue
  else if l =? "STR" then colors.cyan
  else if l =? "END" then colors.cyan
  else if l =? "RPT" then colors.magenta
  else if l =? "INI" then colors.bright ++ colors.cyan
  else colors.gray.

(** Check if message contains error/failure keywords. *)
Definition containsErrorKeywords (message : string) : bool :=
  let lowerMessage := Str.toLowerCase message in
  Str.includes lowerMessage "fail" || Str.includes lowerMessage "err".

(** The class [[0-9;]]. *)
Definition is_sgr_param (c : ascii) : bool :=
  Str.in_range "0" "9" c || Ascii.eqb c ";".

(** [/\u001b\[[0-9;]*m/] at one position: the number of code units of the
    match. The greedy run of [[0-9;]] is the only candidate, as [m] is not
    in the class. *)
Definition match_sgr_at (s : string) : option nat :=
  match Str.strip_prefix (colors.ESC ++ "[") s with
  | None => None
  | Some rest =>
      let (params, t) := Str.span is_sgr_param rest in
      match Str.strip_prefix "m" t with
      | Some _ => Some (3 + String.length params)%nat
      | None => None
      end
  end.

(** [s.replace(/\u001b\[[0-9;]*m/g, "")], with [skip] code units of a
    match still to pass over: at each position a match is dropped and the
    scan goes on after it, and a code unit that starts no match is kept. *)
Fixpoint strip_sgr_from (skip : nat) (s : string) : string :=
  match s with
  | EmptyString => EmptyString
  | String c s' =>
      match skip with
      | S k => strip_sgr_from k s'
      | O =>
          match match_sgr_at s with
          | Some n => strip_sgr_from (n - 1) s'
          | None => String c (strip_sgr_from 0 s')
          end
      end
  end.

Definition strip_sgr (s : string) : string := strip_sgr_from 0 s.

(** [InteractiveFilter.getDimmedLine]. *)
Definition getDimmedLine (formatted : string) : string :=
  colors.gray ++ colors.dim ++ strip_sgr formatted ++ colors.reset.

(** The start time [main] gives the stream after the initial fetch, at
    the instant [now = Date.now()]. The spread [Math.max(...xs)] passes one
    argument for each fetched event, and a call with more arguments than
    the engine accepts throws a [RangeError]; how many it accepts depends
    on the engine and its stack, and is the parameter [max_arguments]. *)
Definition main_streamStartTime (max_arguments : nat)
    (initialEvents : list FilteredLogEvent) (now : Z) : result Z :=
  match initialEvents with
  | ev :: evs =>
      if (List.length initialEvents <=? max_arguments)%nat
      then Ok (Math_max (timestamp_or_0 ev) (map timestamp_or_0 evs) + 1)%Z
      else Err "RangeError"
  | [] => Ok now
  end.

(** [s.replace(/\s+/g, " ")]: every run of white space becomes one space;
    [in_run] says that the code unit before belongs to the run being
    replaced. *)
Fixpoint collapse_spaces (in_run : bool) (s : string) : string :=
  match s with
  | EmptyString => EmptyString
  | String c s' =>
      if is_space c then
        if in_run then collapse_spaces true s'
        else String " " (collapse_spaces true s')
      else String c (collapse_spaces false s')
  end.

(** The last two steps of the clean-up of the message in [formatLogEntry]:
    [.replace(/\s+/g, " ").trim()]. *)
Definition normalize_spaces (s : string) : string :=
  trim (collapse_spaces false s).

(** ** Further vocabulary *)

Module Spec2.

(** Every white-space character of [r] is a plain space that stands
    between two characters that are not white space. *)
Definition single_spaced (r : string) : Prop :=
  forall pre c post,
    r = pre ++ String c post ->
    is_space c = true ->
    c = " "%char /\ pre <> "" /\ post <> "" /\ Str.stops is_space post.

(** The characters of [s] that are not white space, in order. *)
Definition text_of (s : string) : list ascii :=
  filter (fun c => negb (is_space c)) (list_ascii_of_string s).

(** White space is plain spaces, never two in a row; [prev_space] says
    that the character before is a space. *)
Fixpoint spaced_once (prev_space : bool) (s : string) : bool :=
  match s with
  | EmptyString => true
  | String c s' =>
      if is_space c
      then Ascii.eqb c " " && negb prev_space && spaced_once true s'
      else spaced_once false s'
  end.

Definition starts_with_text (s : string) : bool :=
  match s with
  | EmptyString => false
  | String c _ => negb (is_space c)
  end.

(** White space is plain spaces, each between two characters that are
    not white space; [prev_text] says that the character before is one. *)
Fixpoint spaced_inside (prev_text : bool) (s : string) : bool :=
  match s with
  | EmptyString => true
  | String c s' =>
      if is_space c
      then Ascii.eqb c " " && prev_text && starts_with_text s'
           && spaced_inside false s'
      else spaced_inside true s'
  end.

(** [t] has no escape character. *)
Definition no_ESC (t : string) : Prop :=
  Str.all (fun c => negb (Ascii.eqb c (ascii_of_nat 27))) t = true.

(** The styling code with the parameters [params]. *)
Definition sgr (params : string) : string :=
  colors.ESC ++ "[" ++ params ++ "m".

(** [line] is the text [plain] with styling codes put in: runs of text
    without escape characters and styling codes, in any order. *)
Inductive styled : string -> string -> Prop :=
| styled_end : styled "" ""
| styled_text t line plain :
    no_ESC t -> styled line plain -> styled (t ++ line) (t ++ plain)
| styled_code params line plain :
    Str.all is_sgr_param params = true -> styled line plain ->
    styled (sgr params ++ line) plain.

(** Asked with [token] in the state [w], the source answers [n] pages that
    each carry the continuation token of the next request, and then fails
    with [e], leaving the state [w']. *)
Inductive failing_chain {W : Type} (client : CloudWatchLogsClient W)
    (logGroup : string) (filter : option string) (start : Z)
  : option string -> W -> nat -> string -> W -> Prop :=
| fails_here token w e w' :
    send client (Spec.page_request logGroup filter start token) w
    = (Err e, w') ->
    failing_chain client logGroup filter start token w 0 e w'
| fails_later token w r w1 t n e w' :
    send client (Spec.page_request logGroup filter start token) w
    = (Ok r, w1) ->
    response_nextToken r = Some t ->
    t <> "" ->
    failing_chain client logGroup filter start (Some t) w1 n e w' ->
    failing_chain client logGroup filter start token w (S n) e w'.

(** An event handed downstream is older than the cursor it is handed
    downstream under. *)
Definition yield_behind (a : Action) : Prop :=
  match a with
  | AYield e c => (timestamp_or_0 e < c)%Z
  | _ => True
  end.

(** A request of the stream: the first page only, of the log group and
    filter given. *)
Definition first_page_only (logGroup : string) (filter : option string)
    (a : Action) : Prop :=
  match a with
  | ASend p =>
      nextToken p = None /\ logGroupName p = logGroup /\
      filterPattern p = filter /\ limit p = 10000%Z /\ interleaved p = true
  | _ => True
  end.

Definition is_yield (a : Action) : Prop :=
  match a with
  | AYield _ _ => True
  | _ => False
  end.

(** The trace of one complete turn: a request, events handed downstream,
    a sleep of the poll interval. *)
Definition turn_shape (pollMs : Z) (t : list Action) : Prop :=
  exists p ys, t = (ASend p :: ys ++ [ASleep pollMs])%list /\ Forall is_yield ys.

(** Every character of the pattern is printable. *)
Definition printable_pattern (fs : FilterState) : Prop :=
  Str.all (Str.in_range " " "~") (pattern fs) = true.

End Spec2.

Module Examples2.

(** One good batch, then a throttled poll, then more events. *)
Definition flaky : list (result FilterLogEventsResponse) :=
  [Ok {| events := Some [Examples.ev 100 "a"]; response_nextToken := None |};
   Err "ThrottlingException";
   Ok {| events := Some [Examples.ev 200 "b"]; response_nextToken := None |}].

(** A source whose second page fails. *)
Definition broken : CloudWatchLogsClient unit :=
  {| send := fun params w =>
       match nextToken params with
       | None => (Ok Examples.page1, w)
       | Some _ => (Err "ServiceUnavailableException", w)
       end |}.

(** A source whose first page carries the empty string as its token, and
    that would have a second page. *)
Definition blank_page : FilterLogEventsResponse :=
  {| events := Some [Examples.ev 1 "a"]; response_nextToken := Some "" |}.

Definition blank_token : CloudWatchLogsClient unit :=
  {| send := fun params w =>
       match nextToken params with
       | None => (Ok blank_page, w)
       | Some _ => (Ok Examples.page3, w)
       end |}.

End Examples2.

(** * Properties *)

(** ** Facts about strings *)

Module StrFacts.
Import Str.

Lemma append_nil_r (s : string) : s ++ "" = s.
Proof. induction s as [|c s IH]; simpl; [reflexivity | now rewrite IH]. Qed.

Lemma append_assoc (a b c : string) : (a ++ b) ++ c = a ++ (b ++ c).
Proof. induction a as [|x a IH]; simpl; [reflexivity | now rewrite IH]. Qed.

Lemma length_append (a b : string) :
  String.length (a ++ b) = (String.length a + String.length b)%nat.
Proof. induction a as [|x a IH]; simpl; [reflexivity | now rewrite IH]. Qed.

Lemma strip_prefix_iff (p s r : string) :
  strip_prefix p s = Some r <-> s = p ++ r.
Proof.
  revert s; induction p as [|a p IH]; intros s; simpl.
  - split; [intros [= ->] | intros ->]; reflexivity.
  - destruct s as [|b s].
    + split; discriminate.
    + destruct (Ascii.eqb_spec a b) as [->|Hne].
      * rewrite IH. split; [intros -> | intros [= ->]]; reflexivity.
      * split; [discriminate | intros [= E _]; now elim Hne].
Qed.

Lemma startsWith_iff (s p : string) :
  startsWith s p = true <-> exists r, s = p ++ r.
Proof.
  unfold startsWith. destruct (strip_prefix p s) as [r|] eqn:E.
  - apply strip_prefix_iff in E. split; [eauto | reflexivity].
  - split; [discriminate | intros [r Hr]].
    apply strip_prefix_iff in Hr. congruence.
Qed.

Lemma includes_iff (s sub : string) :
  includes s sub = true <-> contains s sub.
Proof.
  unfold contains. induction s as [|c s IH]; simpl.
  - rewrite orb_false_r, startsWith_iff. split.
    + intros [r Hr]. now exists "", r.
    + intros (pre & post & H). destruct pre; [|discriminate].
      now exists post.
  - rewrite orb_true_iff, startsWith_iff, IH. split.
    + intros [[r Hr] | (pre & post & ->)].
      * now exists "", r.
      * now exists (String c pre), post.
    + intros (pre & post & H). destruct pre as [|x pre].
      * left. now exists post.
      * right. injection H as _ ->. now exists pre, post.
Qed.

Lemma includes_false_iff (s sub : string) :
  includes s sub = false <-> ~ contains s sub.
Proof.
  rewrite <- includes_iff. destruct (includes s sub); split; intuition congruence.
Qed.

Lemma toLowerCase_append (a b : string) :
  toLowerCase (a ++ b) = toLowerCase a ++ toLowerCase b.
Proof. induction a as [|x a IH]; simpl; [reflexivity | now rewrite IH]. Qed.

Lemma toLowerCase_length (s : string) :
  String.length (toLowerCase s) = String.length s.
Proof. induction s as [|c s IH]; simpl; [reflexivity | now rewrite IH]. Qed.

(** A split of the lower-cased string comes from a split of the string. *)
Lemma toLowerCase_split (s x y : string) :
  toLowerCase s = x ++ y ->
  exists a b, s = a ++ b /\ toLowerCase a = x /\ toLowerCase b = y.
Proof.
  revert s; induction x as [|c x IH]; intros s H; simpl in H.
  - now exists "", s.
  - destruct s as [|d s]; [discriminate|]. simpl in H.
    injection H as Hc Hs. destruct (IH _ Hs) as (a & b & -> & Ha & Hb).
    exists (String d a), b. simpl. now rewrite Hc, Ha, Hb.
Qed.

Lemma In_case_pairs (c d : ascii) :
  existsb (fun p => Ascii.eqb (fst p) c && Ascii.eqb (snd p) d)
    Spec.case_pairs = true ->
  In (c, d) Spec.case_pairs.
Proof.
  intros H. apply existsb_exists in H as ([x y] & Hin & H).
  apply andb_true_iff in H as [Hx Hy]. simpl in Hx, Hy.
  apply Ascii.eqb_eq in Hx, Hy. now subst.
Qed.

Lemma case_pairs_lower (c d : ascii) :
  In (c, d) Spec.case_pairs ->
  is_upper c = true /\ lower_char c = d /\ is_upper d = false.
Proof.
  intros H. vm_compute in H.
  repeat (destruct H as [H|H];
          [injection H as <- <-; repeat split; reflexivity|]).
  destruct H.
Qed.

Lemma upper_in_case_pairs (c : ascii) :
  is_upper c = true -> In (c, lower_char c) Spec.case_pairs.
Proof.
  intros H. apply In_case_pairs.
  destruct c as [[] [] [] [] [] [] [] []]; try discriminate H; reflexivity.
Qed.

Lemma lower_char_of_upper (c : ascii) :
  is_upper c = true -> ascii_of_nat (code (lower_char c) - 32) = c.
Proof.
  destruct c as [[] [] [] [] [] [] [] []]; intros H; try discriminate H;
    reflexivity.
Qed.

Lemma same_letter_lower (c d : ascii) :
  Spec.same_letter c d <-> lower_char c = lower_char d.
Proof.
  split.
  - intros [->|[H|H]]; [reflexivity| |];
      apply case_pairs_lower in H as (Hu & Hl & Hd); rewrite Hl.
    + unfold lower_char. now rewrite Hd.
    + unfold lower_char at 1. now rewrite Hd.
  - intros H. destruct (is_upper c) eqn:Hc, (is_upper d) eqn:Hd.
    + left. rewrite <- (lower_char_of_upper c Hc), <- (lower_char_of_upper d Hd).
      now rewrite H.
    + right; left. unfold lower_char at 2 in H. rewrite Hd in H. rewrite <- H.
      now apply upper_in_case_pairs.
    + right; right. unfold lower_char at 1 in H. rewrite Hc in H. rewrite H.
      now apply upper_in_case_pairs.
    + left. unfold lower_char in H. now rewrite Hc, Hd in H.
Qed.

Lemma eq_ci_lower (a b : string) :
  Spec.eq_ci a b <-> toLowerCase a = toLowerCase b.
Proof.
  split.
  - induction 1 as [|c d s t Hc _ IH]; simpl; [reflexivity|].
    apply same_letter_lower in Hc. now rewrite Hc, IH.
  - revert b; induction a as [|c a IH]; intros [|d b] H; simpl in H;
      try discriminate.
    + constructor.
    + injection H as Hc Hs. constructor; [|auto].
      now apply same_letter_lower.
Qed.

Lemma contains_ci_lower (s sub : string) :
  Spec.contains_ci s sub <-> contains (toLowerCase s) (toLowerCase sub).
Proof.
  unfold Spec.contains_ci, contains. split.
  - intros (pre & mid & post & -> & H). apply eq_ci_lower in H.
    exists (toLowerCase pre), (toLowerCase post).
    now rewrite !toLowerCase_append, H.
  - intros (x & y & H).
    destruct (toLowerCase_split _ _ _ H) as (a & b & -> & Ha & Hb).
    destruct (toLowerCase_split _ _ _ Hb) as (m & p & -> & Hm & Hp).
    exists a, m, p. split; [reflexivity | now apply eq_ci_lower].
Qed.

End StrFacts.

(** ** The dim decision *)

(** C5. A line is dimmed exactly when the filter is active, its pattern is
    not empty and the raw message does not contain the pattern as a
    case-insensitive substring (a substring that is the pattern letter for
    letter, whatever the case of each letter); with the pattern "timeout",
    "Connection timeout after 30s" is not dimmed and "OK" is, and with the
    pattern "TimeOut", "Connection TIMEOUT after 30s" is not dimmed. *)
Theorem shouldDimLine_iff :
  (forall (fs : FilterState) (msg : string),
      InteractiveFilter.shouldDimLine fs msg = true <->
      isActive fs = true /\ pattern fs <> "" /\
      ~ Spec.contains_ci msg (pattern fs)) /\
  InteractiveFilter.shouldDimLine
    {| pattern := "timeout"; isActive := true |}
    "Connection timeout after 30s" = false /\
  InteractiveFilter.shouldDimLine
    {| pattern := "timeout"; isActive := true |} "OK" = true /\
  InteractiveFilter.shouldDimLine
    {| pattern := "TimeOut"; isActive := true |}
    "Connection TIMEOUT after 30s" = false.
Proof.
  split; [|repeat split; reflexivity].
  intros [pat act] msg. unfold InteractiveFilter.shouldDimLine. simpl.
  rewrite StrFacts.contains_ci_lower, <- StrFacts.includes_false_iff.
  destruct act; simpl.
  - destruct (String.eqb_spec pat "") as [->|Hne].
    + split; [discriminate | intros (_ & H & _); now elim H].
    + rewrite negb_true_iff. tauto.
  - split; [discriminate | intros (H & _); discriminate].
Qed.

(** ** The level classifier *)

Lemma extractLogLevel_table (msg : string) :
  extractLogLevel msg =
  match find (fun mt => Str.includes msg (fst mt)) Spec.level_table with
  | Some (_, tag) => tag
  | None => Spec.blank_tag
  end.
Proof.
  unfold extractLogLevel, Spec.level_table, find, fst.
  repeat match goal with
         | |- context [Str.includes msg ?m] => destruct (Str.includes msg m)
         end; reflexivity.
Qed.

(** First match wins, for any table of markers. *)
Lemma find_first_match (msg : string) (table : list (string * string)) :
  (forall before marker tag after,
      table = (before ++ (marker, tag) :: after)%list ->
      Str.contains msg marker ->
      (forall m t, In (m, t) before -> ~ Str.contains msg m) ->
      find (fun mt => Str.includes msg (fst mt)) table = Some (marker, tag)) /\
  ((forall m t, In (m, t) table -> ~ Str.contains msg m) ->
   find (fun mt => Str.includes msg (fst mt)) table = None).
Proof.
  induction table as [|[m0 t0] table [IH1 IH2]]; split.
  - intros [|? ?] ? ? ? H; discriminate.
  - reflexivity.
  - intros before marker tag after E Hin Hno. simpl.
    destruct before as [|[m1 t1] before]; simpl in E; injection E as -> -> ->.
    + apply StrFacts.includes_iff in Hin. now rewrite Hin.
    + assert (Hm : Str.includes msg m1 = false).
      { apply StrFacts.includes_false_iff. apply (Hno m1 t1). now left. }
      rewrite Hm. eapply IH1; [reflexivity | assumption |].
      intros m t Hmt. apply (Hno m t). now right.
  - intros Hno. simpl.
    assert (Hm : Str.includes msg m0 = false).
    { apply StrFacts.includes_false_iff. apply (Hno m0 t0). now left. }
    rewrite Hm. apply IH2. intros m t Hmt. apply (Hno m t). now right.
Qed.

(** C6. The level tag is the tag of the first marker, in the priority
    order ERROR, WARN, INFO, DEBUG, "START RequestId:", "END RequestId:",
    "REPORT RequestId:", "INIT_START", that occurs in the raw message, and
    the blank tag when none occurs; a message with both "ERROR" and "WARN"
    gets the tag of ERROR. *)
Theorem extractLogLevel_priority (msg : string) :
  (forall before marker tag after,
      Spec.level_table = (before ++ (marker, tag) :: after)%list ->
      Str.contains msg marker ->
      (forall m t, In (m, t) before -> ~ Str.contains msg m) ->
      extractLogLevel msg = tag) /\
  ((forall m t, In (m, t) Spec.level_table -> ~ Str.contains msg m) ->
   extractLogLevel msg = Spec.blank_tag) /\
  (Str.contains msg "ERROR" -> Str.contains msg "WARN" ->
   extractLogLevel msg = "ERR").
Proof.
  destruct (find_first_match msg Spec.level_table) as [H1 H2].
  rewrite extractLogLevel_table. repeat split.
  - intros before marker tag after E Hin Hno.
    now rewrite (H1 before marker tag after E Hin Hno).
  - intros Hno. now rewrite (H2 Hno).
  - intros He _.
    rewrite (H1 [] "ERROR" "ERR" (tl Spec.level_table) eq_refl He);
      [reflexivity | intros m t []].
Qed.

(** A message with a warning after an error, and one with no marker. *)
Lemma extractLogLevel_priority_witness :
  extractLogLevel "WARN retry after ERROR" = "ERR" /\
  extractLogLevel "hello" = Spec.blank_tag.
Proof.
  destruct (extractLogLevel_priority "WARN retry after ERROR") as (_ & _ & H).
  destruct (extractLogLevel_priority "hello") as (_ & Hb & _).
  split.
  - apply H; apply StrFacts.includes_iff; reflexivity.
  - apply Hb. intros m t Hin. apply StrFacts.includes_false_iff.
    simpl in Hin.
    repeat (destruct Hin as [[= <- <-]|Hin]; [reflexivity|]).
    destruct Hin.
Defined.

(** ** The filter state *)

Module FilterFacts.
Import InteractiveFilter.

Lemma length_0_empty (s : string) : String.length s = 0%nat -> s = "".
Proof. destruct s; [reflexivity | discriminate]. Qed.

Lemma eqb_empty_length (s : string) :
  (s =? "") = (String.length s =? 0)%nat.
Proof. destruct s; reflexivity. Qed.

Lemma addToFilter_flag (char : string) (fs : FilterState) :
  char <> "" -> Spec.flag_is_derived (fst (addToFilter char fs)).
Proof.
  intros Hc. unfold Spec.flag_is_derived. simpl.
  rewrite eqb_empty_length, StrFacts.length_append.
  destruct char; [now elim Hc|]. simpl.
  now rewrite Nat.add_succ_r.
Qed.

Lemma handleBackspace_flag (fs : FilterState) :
  Spec.flag_is_derived fs -> Spec.flag_is_derived (fst (handleBackspace fs)).
Proof.
  unfold Spec.flag_is_derived, handleBackspace. intros H.
  destruct (0 <? String.length (pattern fs))%nat eqn:Hlen; [|exact H].
  simpl. destruct (String.length (Str.drop_last (pattern fs)) =? 0)%nat eqn:Hl;
    simpl.
  - apply Nat.eqb_eq, length_0_empty in Hl. now rewrite Hl.
  - rewrite eqb_empty_length, Hl, H, eqb_empty_length.
    apply Nat.ltb_lt in Hlen.
    destruct (String.length (pattern fs)); [lia | reflexivity].
Qed.

Lemma clearFilter_flag (fs : FilterState) :
  Spec.flag_is_derived (fst (clearFilter fs)).
Proof. reflexivity. Qed.

Lemma printable_nonempty (key : string) : Spec.printable key -> key <> "".
Proof. intros (c & -> & _). discriminate. Qed.

Lemma Handled_fst (e : Effect) (fs' : FilterState) (out : list string) :
  Handled e = Handled (fs', out) -> fst e = fs'.
Proof. intros [= ->]. reflexivity. Qed.

Lemma handleKeyPress_flag (keyStr : string) (fs fs' : FilterState)
    (out : list string) :
  handleKeyPress keyStr fs = Handled (fs', out) ->
  Spec.flag_is_derived fs -> Spec.flag_is_derived fs'.
Proof.
  unfold handleKeyPress. intros H Hfs.
  repeat match type of H with
         | (if ?b then _ else _) = _ => destruct b eqn:?
         end; try discriminate; apply Handled_fst in H.
  - rewrite <- H. now apply handleBackspace_flag.
  - rewrite <- H. now apply handleBackspace_flag.
  - rewrite <- H. apply (clearFilter_flag fs).
  - rewrite <- H. apply addToFilter_flag.
    destruct keyStr; [discriminate | congruence].
  - now rewrite <- H.
Qed.

Lemma handleKeys_flag (keys : list string) :
  forall fs fs' out st,
    handleKeys keys fs = (fs', out, st) ->
    Spec.flag_is_derived fs -> Spec.flag_is_derived fs'.
Proof.
  induction keys as [|k keys IH]; intros fs fs' out st H Hfs; simpl in H.
  - now injection H as <- _ _.
  - destruct (handleKeyPress k fs) as [status | [fs1 out1]] eqn:Hk.
    + now injection H as <- _ _.
    + destruct (handleKeys keys fs1) as [[fs2 out2] st2] eqn:Hks.
      injection H as <- _ _.
      eapply IH; [exact Hks|]. eapply handleKeyPress_flag; eauto.
Qed.

End FilterFacts.

(** C8. From the initial empty, inactive state, the activity flag equals
    "the pattern is not empty" after every sequence of key presses, and
    each keystroke operation (append a printable character, backspace,
    delete, escape) keeps it so; backspace on an empty pattern returns
    normally, writes nothing and leaves the state as it was, so the initial
    filter stays inactive with an empty pattern. *)
Theorem filter_flag_invariant :
  (forall keys fs out st,
      InteractiveFilter.handleKeys keys InteractiveFilter.initial
        = (fs, out, st) ->
      Spec.flag_is_derived fs) /\
  (forall fs, Spec.flag_is_derived fs ->
      (forall key, Spec.printable key ->
         Spec.flag_is_derived (fst (InteractiveFilter.addToFilter key fs))) /\
      Spec.flag_is_derived (fst (InteractiveFilter.handleBackspace fs)) /\
      Spec.flag_is_derived (fst (InteractiveFilter.handleDelete fs)) /\
      Spec.flag_is_derived (fst (InteractiveFilter.clearFilter fs))) /\
  (forall fs, pattern fs = "" ->
      InteractiveFilter.handleBackspace fs = (fs, [])) /\
  InteractiveFilter.handleKeyPress (String (ascii_of_nat 127) "")
    InteractiveFilter.initial
    = InteractiveFilter.Handled
        ({| pattern := ""; isActive := false |}, []).
Proof.
  repeat split.
  - intros keys fs out st H.
    eapply FilterFacts.handleKeys_flag; [exact H | reflexivity].
  - intros key Hk. apply FilterFacts.addToFilter_flag.
    now apply FilterFacts.printable_nonempty.
  - now apply FilterFacts.handleBackspace_flag.
  - now apply FilterFacts.handleBackspace_flag.
  - intros [pat act] E. simpl in E. subst pat. reflexivity.
Qed.

(** The keys a, B, backspace, backspace, backspace: the third backspace
    finds the pattern empty. *)
Lemma filter_flag_invariant_witness :
  Spec.flag_is_derived
    (fst (fst (InteractiveFilter.handleKeys
                 ["a"; "B"; String (ascii_of_nat 127) "";
                  String (ascii_of_nat 127) ""; String (ascii_of_nat 127) ""]
                 InteractiveFilter.initial))) /\
  InteractiveFilter.handleBackspace InteractiveFilter.initial
    = (InteractiveFilter.initial, []).
Proof.
  destruct filter_flag_invariant as (Hkeys & _ & Hbs & _).
  split.
  - destruct (InteractiveFilter.handleKeys _ _) as [[fs out] st] eqn:E.
    exact (Hkeys _ fs out st E).
  - apply Hbs. reflexivity.
Defined.

(** ** The lookback parser *)

(** The character classes of the regular expressions are the alphabets
    of the specification. *)
Module ClassFacts.

Lemma is_digit_member (c : ascii) :
  is_digit c = Spec.member Spec.decimal_digits c.
Proof. destruct c as [[] [] [] [] [] [] [] []]; reflexivity. Qed.

Lemma digit_value_place (c : ascii) :
  is_digit c = true ->
  digit_value c = Z.of_nat (Spec.place Spec.decimal_digits c).
Proof.
  destruct c as [[] [] [] [] [] [] [] []]; intros H; try discriminate H;
    reflexivity.
Qed.

Lemma is_hex_member (c : ascii) : is_hex c = Spec.member Spec.hex_digits c.
Proof. destruct c as [[] [] [] [] [] [] [] []]; reflexivity. Qed.

Lemma is_id_char_member (c : ascii) :
  is_id_char c = Spec.member Spec.id_chars c.
Proof. destruct c as [[] [] [] [] [] [] [] []]; reflexivity. Qed.

Lemma all_ext (p q : ascii -> bool) (s : string) :
  (forall c, p c = q c) -> Str.all p s = Str.all q s.
Proof.
  intros H. induction s as [|c s IH]; simpl; [reflexivity|].
  now rewrite H, IH.
Qed.

Lemma is_id_code (id : string) :
  Spec.is_id id <-> id <> "" /\ Str.all is_id_char id = true.
Proof.
  unfold Spec.is_id.
  now rewrite (all_ext is_id_char (Spec.member Spec.id_chars) id
                 is_id_char_member).
Qed.

Lemma ends_id_code (rest : string) :
  Spec.ends_id rest <-> Str.stops is_id_char rest.
Proof.
  unfold Spec.ends_id. destruct rest as [|c rest]; simpl; [tauto|].
  now rewrite is_id_char_member.
Qed.

Lemma hex_group_code (n : nat) (g : string) :
  Spec.hex_group n g <-> String.length g = n /\ Str.all is_hex g = true.
Proof.
  unfold Spec.hex_group.
  now rewrite (all_ext is_hex (Spec.member Spec.hex_digits) g is_hex_member).
Qed.

Lemma all_digits_code (ds : string) :
  Str.all (Spec.member Spec.decimal_digits) ds = Str.all is_digit ds.
Proof. symmetry. apply all_ext. exact is_digit_member. Qed.

End ClassFacts.

Module TimeFacts.

Lemma span_spec (p : ascii -> bool) (s r t : string) :
  Str.span p s = (r, t) -> s = r ++ t /\ Str.all p r = true /\ Str.stops p t.
Proof.
  revert r t; induction s as [|c s IH]; intros r t H; simpl in H.
  - injection H as <- <-. simpl. auto.
  - destruct (p c) eqn:Hc.
    + destruct (Str.span p s) as [r1 t1]. injection H as <- <-.
      destruct (IH r1 t1 eq_refl) as (-> & Hall & Hst).
      simpl. rewrite Hc, Hall. auto.
    + injection H as <- <-. simpl. auto.
Qed.

Lemma span_run (p : ascii -> bool) (r t : string) :
  Str.all p r = true -> Str.stops p t -> Str.span p (r ++ t) = (r, t).
Proof.
  intros Hall Hst. induction r as [|c r IH]; simpl in *.
  - destruct t as [|d t]; simpl in *; [reflexivity | now rewrite Hst].
  - apply andb_true_iff in Hall as [Hc Hall]. now rewrite Hc, (IH Hall).
Qed.

Lemma unit_of_char_In (u : ascii) (unit : TimeUnit) :
  unit_of_char u = Some unit -> In u ["s"; "m"; "h"; "d"]%char.
Proof.
  unfold unit_of_char.
  destruct (Ascii.eqb_spec u "s") as [->|_]; [simpl; auto|].
  destruct (Ascii.eqb_spec u "m") as [->|_]; [simpl; auto|].
  destruct (Ascii.eqb_spec u "h") as [->|_]; [simpl; auto|].
  destruct (Ascii.eqb_spec u "d") as [->|_]; [simpl; auto 6|].
  discriminate.
Qed.

Lemma unit_In_inv (u : ascii) :
  In u ["s"; "m"; "h"; "d"]%char ->
  is_digit u = false /\
  exists unit, unit_of_char u = Some unit /\ multipliers unit = Spec.unit_ms u.
Proof.
  simpl. intros [<-|[<-|[<-|[<-|[]]]]]; (split; [reflexivity|]).
  - now exists unit_s.
  - now exists unit_m.
  - now exists unit_h.
  - now exists unit_d.
Qed.

Lemma match_time_lookback (s ds : string) (u : ascii) :
  Spec.lookback s ds u ->
  exists unit, match_time s = Some (ds, unit)
               /\ multipliers unit = Spec.unit_ms u.
Proof.
  intros (-> & Hne & Hall & Hu). rewrite ClassFacts.all_digits_code in Hall.
  destruct (unit_In_inv u Hu) as (Hd & unit & Hunit & Hms).
  exists unit. split; [|exact Hms]. unfold match_time.
  rewrite (span_run is_digit ds (String u "") Hall Hd).
  destruct ds; [now elim Hne|]. now rewrite Hunit.
Qed.

Lemma match_time_inv (s amount : string) (unit : TimeUnit) :
  match_time s = Some (amount, unit) ->
  exists u, Spec.lookback s amount u.
Proof.
  unfold match_time. destruct (Str.span is_digit s) as [r t] eqn:Hsp.
  apply span_spec in Hsp as (-> & Hall & _).
  destruct r as [|c r]; [discriminate|].
  destruct t as [|u [|? ?]]; try discriminate.
  destruct (unit_of_char u) as [un|] eqn:Hu; [|discriminate].
  intros [= <- <-]. exists u. repeat split; auto.
  - discriminate.
  - now rewrite ClassFacts.all_digits_code.
  - eapply unit_of_char_In; eauto.
Qed.

Lemma digits_value_go (s : string) :
  Str.all is_digit s = true ->
  forall acc,
    (fix go (acc : Z) (s : string) : Z :=
       match s with
       | EmptyString => acc
       | String c s' => go (acc * 10 + digit_value c)%Z s'
       end) acc s
    = (acc * 10 ^ Z.of_nat (String.length s) + Spec.decimal s)%Z.
Proof.
  induction s as [|c s IH]; intros Hall acc.
  - simpl. lia.
  - simpl in Hall. apply andb_true_iff in Hall as [Hc Hall].
    rewrite (IH Hall). cbn [String.length Spec.decimal].
    rewrite (ClassFacts.digit_value_place c Hc).
    rewrite Nat2Z.inj_succ, Z.pow_succ_r by lia. ring.
Qed.

Lemma digits_value_decimal (s : string) :
  Str.all is_digit s = true -> digits_value s = Spec.decimal s.
Proof.
  intros Hall. unfold digits_value. rewrite (digits_value_go s Hall). lia.
Qed.

Lemma decimal_nonneg (ds : string) : (0 <= Spec.decimal ds)%Z.
Proof.
  induction ds as [|c ds IH]; simpl; [lia|].
  assert (0 <= 10 ^ Z.of_nat (String.length ds))%Z by (apply Z.pow_nonneg; lia).
  nia.
Qed.

Lemma unit_ms_pos (u : ascii) : (1000 <= Spec.unit_ms u)%Z.
Proof.
  unfold Spec.unit_ms.
  repeat match goal with
         | |- context [if ?b then _ else _] => destruct b
         end; lia.
Qed.

Lemma TWO_53_below_limit : (TWO_53 < DOUBLE_LIMIT)%Z.
Proof. apply Z.ltb_lt. vm_compute. reflexivity. Qed.

(** An integer below [2^53] in size is its own double. *)
Lemma to_double_exact (z : Z) :
  (- TWO_53 < z < TWO_53)%Z -> to_double z = Finite z.
Proof.
  intros Hz. pose proof TWO_53_below_limit as HL. unfold to_double.
  destruct (0 <=? z)%Z eqn:E.
  - unfold round_nonneg.
    replace (z <? TWO_53)%Z with true by (symmetry; apply Z.ltb_lt; lia).
    replace (z <? DOUBLE_LIMIT)%Z with true
      by (symmetry; apply Z.ltb_lt; lia).
    reflexivity.
  - unfold round_nonneg.
    replace (- z <? TWO_53)%Z with true by (symmetry; apply Z.ltb_lt; lia).
    replace (- z <? DOUBLE_LIMIT)%Z with true
      by (symmetry; apply Z.ltb_lt; lia).
    now rewrite Z.opp_involutive.
Qed.

End TimeFacts.

(** C9 as it was stated fails beyond the safe integers: the lookback
    "9007199254740993s" matches the pattern and the parser returns
    9007199254740992000, not 9007199254740993 times 1000. *)
Lemma parseTimeFormat_rounds :
  ~ (forall s ds u,
        Spec.lookback s ds u ->
        parseTimeFormat s = Ok (Finite (Spec.decimal ds * Spec.unit_ms u))).
Proof.
  intros H.
  specialize (H "9007199254740993s" "9007199254740993" "s"%char).
  assert (HL : Spec.lookback "9007199254740993s" "9007199254740993" "s")
    by (repeat split; [discriminate | simpl; auto]).
  specialize (H HL). vm_compute in H. discriminate H.
Qed.

(** C9, amended. The lookback parser returns a number exactly on the
    strings matching [^\d+[smhd]$]; on digits [ds] and unit [u] it returns
    the value of [ds] times 1000, 60000, 3600000 or 86400000 for s, m, h,
    d, whenever that product is at most [Number.MAX_SAFE_INTEGER]; on any
    other string it throws the error "Invalid time format: <input>. Use
    formats like: 10s, 22m, 2h, 1d", and [main] then writes "Error parsing
    --since: " and that message and exits with status 1; the lookback "2h"
    at an instant [T] gives the start time [T - 7200000]. *)
Theorem parseTimeFormat_lookback :
  (forall s ds u,
      Spec.lookback s ds u ->
      (Spec.decimal ds * Spec.unit_ms u <= Spec.MAX_SAFE_INTEGER)%Z ->
      parseTimeFormat s = Ok (Finite (Spec.decimal ds * Spec.unit_ms u))) /\
  (forall s,
      (exists v, parseTimeFormat s = Ok v) <->
      (exists ds u, Spec.lookback s ds u)) /\
  (forall s,
      ~ (exists ds u, Spec.lookback s ds u) ->
      parseTimeFormat s
      = Err ("Invalid time format: " ++ s
             ++ ". Use formats like: 10s, 22m, 2h, 1d") /\
      forall now,
        main_since now s
        = ExitWith 1 ("Error parsing --since: Invalid time format: " ++ s
                      ++ ". Use formats like: 10s, 22m, 2h, 1d")) /\
  Spec.unit_ms "s" = 1000%Z /\ Spec.unit_ms "m" = 60000%Z /\
  Spec.unit_ms "h" = 3600000%Z /\ Spec.unit_ms "d" = 86400000%Z /\
  (forall T, Spec.time_value T ->
             main_since T "2h" = StartAt (Finite (T - 7200000))).
Proof.
  repeat split.
  - intros s ds u H Hsafe.
    destruct (TimeFacts.match_time_lookback s ds u H) as (unit & Hm & Hms).
    destruct H as (_ & _ & Hall & _).
    rewrite ClassFacts.all_digits_code in Hall.
    pose proof (TimeFacts.decimal_nonneg ds) as Hd.
    pose proof (TimeFacts.unit_ms_pos u) as Hu.
    unfold Spec.MAX_SAFE_INTEGER in Hsafe.
    unfold parseTimeFormat, parseInt10.
    rewrite Hm, (TimeFacts.digits_value_decimal ds Hall), Hms.
    rewrite (TimeFacts.to_double_exact (Spec.decimal ds))
      by (unfold TWO_53; nia).
    cbn [Number_times].
    now rewrite (TimeFacts.to_double_exact (Spec.decimal ds * Spec.unit_ms u))
      by (unfold TWO_53; nia).
  - intros [v Hv]. unfold parseTimeFormat in Hv.
    destruct (match_time s) as [[amount unit]|] eqn:Hm; [|discriminate].
    destruct (TimeFacts.match_time_inv _ _ _ Hm) as [u Hu]. eauto.
  - intros (ds & u & H).
    destruct (TimeFacts.match_time_lookback s ds u H) as (unit & Hm & _).
    unfold parseTimeFormat. rewrite Hm. eauto.
  - unfold parseTimeFormat.
    destruct (match_time s) as [[amount unit]|] eqn:Hm; [|reflexivity].
    destruct (TimeFacts.match_time_inv _ _ _ Hm) as [u Hu].
    elim H. eauto.
  - intros now. unfold main_since, parseTimeFormat.
    destruct (match_time s) as [[amount unit]|] eqn:Hm; [|reflexivity].
    destruct (TimeFacts.match_time_inv _ _ _ Hm) as [u Hu].
    elim H. eauto.
  - intros T [HT1 HT2].
    change (main_since T "2h") with (StartAt (to_double (T - 7200000))).
    now rewrite (TimeFacts.to_double_exact (T - 7200000))
      by (unfold TWO_53; lia).
Qed.

(** "15m" parses to 900000 ms, "15 m" is refused, and "2h" at the instant
    1700000000000 starts at 1699992800000. *)
Lemma parseTimeFormat_lookback_witness :
  parseTimeFormat "15m" = Ok (Finite 900000) /\
  parseTimeFormat "15 m"
  = Err "Invalid time format: 15 m. Use formats like: 10s, 22m, 2h, 1d" /\
  main_since 1700000000000 "2h" = StartAt (Finite 1699992800000).
Proof.
  destruct parseTimeFormat_lookback as (Hok & _ & Herr & _ & _ & _ & _ & H2h).
  split; [|split].
  - apply (Hok "15m" "15" "m"%char).
    + repeat split; [discriminate | simpl; auto].
    + vm_compute. discriminate.
  - apply (Herr "15 m"). intros (ds & u & Hs & _ & Hall & _).
    destruct ds as [|a [|b [|c ds]]]; simpl in Hs.
    + discriminate Hs.
    + discriminate Hs.
    + discriminate Hs.
    + injection Hs as <- <- <- _. discriminate Hall.
  - apply (H2h 1700000000000%Z). unfold Spec.time_value. lia.
Defined.

(** ** The correlation token *)

Module TokenFacts.

Lemma search_found {A : Type} (m : string -> option A) (pre suf : string) (r : A) :
  m suf = Some r ->
  (forall p1 p2, pre = p1 ++ p2 -> p2 <> "" -> m (p2 ++ suf) = None) ->
  Str.search m (pre ++ suf) = Some r.
Proof.
  induction pre as [|c pre IH]; intros Hm Hno.
  - simpl. destruct suf; simpl; now rewrite Hm.
  - cbn [append Str.search].
    assert (H0 : m (String c (pre ++ suf)) = None)
      by (apply (Hno "" (String c pre)); [reflexivity | discriminate]).
    rewrite H0. apply IH; [exact Hm|]. intros p1 p2 -> Hp2.
    now apply (Hno (String c p1) p2).
Qed.

Lemma search_none {A : Type} (m : string -> option A) (s : string) :
  (forall pre suf, s = pre ++ suf -> m suf = None) <-> Str.search m s = None.
Proof.
  induction s as [|c s IH]; simpl.
  - split.
    + intros H. now rewrite (H "" "" eq_refl).
    + intros H pre suf E. destruct pre; [|discriminate]. simpl in E. subst suf.
      now destruct (m "").
  - split.
    + intros H. rewrite (H "" (String c s) eq_refl). apply IH.
      intros pre suf ->. now apply (H (String c pre) suf).
    + intros H pre suf E. destruct (m (String c s)) eqn:Hm; [discriminate|].
      destruct pre as [|d pre]; simpl in E.
      * now subst suf.
      * injection E as _ E. destruct IH as [_ IH]. now apply (IH H pre suf).
Qed.

Lemma span_nonempty (p : ascii -> bool) (r t : string) :
  r <> "" -> Str.all p r = true -> fst (Str.span p (r ++ t)) <> "".
Proof.
  destruct r as [|c r]; [congruence|]. intros _ H. simpl in *.
  apply andb_true_iff in H as [Hc _]. rewrite Hc.
  destruct (Str.span p (r ++ t)). discriminate.
Qed.

Lemma match_RequestId_at_id (id rest : string) :
  Spec.is_id id -> Spec.ends_id rest ->
  match_RequestId_at ("RequestId: " ++ id ++ rest) = Some id.
Proof.
  intros Hid Hend. apply ClassFacts.is_id_code in Hid as [Hne Hall].
  apply ClassFacts.ends_id_code in Hend. unfold match_RequestId_at.
  assert (E : Str.strip_prefix "RequestId: " ("RequestId: " ++ id ++ rest)
              = Some (id ++ rest)) by now apply StrFacts.strip_prefix_iff.
  rewrite E, (TimeFacts.span_run is_id_char id rest Hall Hend).
  destruct id; [now elim Hne | reflexivity].
Qed.

Lemma match_RequestId_at_marker (s : string) :
  Spec.marker_at s <-> match_RequestId_at s <> None.
Proof.
  unfold match_RequestId_at. split.
  - intros (id & rest & -> & Hid).
    apply ClassFacts.is_id_code in Hid as [Hne Hall].
    assert (E : Str.strip_prefix "RequestId: " ("RequestId: " ++ id ++ rest)
                = Some (id ++ rest)) by now apply StrFacts.strip_prefix_iff.
    rewrite E. pose proof (span_nonempty is_id_char id rest Hne Hall) as Hs.
    destruct (fst (Str.span is_id_char (id ++ rest))); congruence.
  - destruct (Str.strip_prefix "RequestId: " s) as [rest|] eqn:E; [|congruence].
    apply StrFacts.strip_prefix_iff in E.
    destruct (Str.span is_id_char rest) as [r t] eqn:Hsp.
    apply TimeFacts.span_spec in Hsp as (-> & Hall & _). simpl fst.
    destruct r as [|c r]; [congruence|]. intros _.
    exists (String c r), t. split; [exact E|].
    apply ClassFacts.is_id_code. split; [discriminate | exact Hall].
Qed.

Lemma match_RequestId_at_none (s : string) :
  ~ Spec.marker_at s -> match_RequestId_at s = None.
Proof.
  rewrite match_RequestId_at_marker.
  destruct (match_RequestId_at s); [intros H; elim H; discriminate | reflexivity].
Qed.

Lemma take_class_group (n : nat) (p : ascii -> bool) (g t : string) :
  String.length g = n -> Str.all p g = true ->
  Str.take_class n p (g ++ t) = Some (g, t).
Proof.
  revert g; induction n as [|n IH]; intros [|c g] Hl Ha; try discriminate.
  - reflexivity.
  - simpl in *. apply andb_true_iff in Ha as [Hc Ha]. injection Hl as Hl.
    now rewrite Hc, (IH g Hl Ha).
Qed.

Lemma take_class_spec (n : nat) (p : ascii -> bool) (s g t : string) :
  Str.take_class n p s = Some (g, t) ->
  s = g ++ t /\ String.length g = n /\ Str.all p g = true.
Proof.
  revert s g t; induction n as [|n IH]; intros s g t H; simpl in H.
  - injection H as <- <-. auto.
  - destruct s as [|c s]; [discriminate|].
    destruct (p c) eqn:Hc; [|discriminate].
    destruct (Str.take_class n p s) as [[r u]|] eqn:E; [|discriminate].
    injection H as <- <-. destruct (IH _ _ _ E) as (-> & Hl & Ha).
    simpl. now rewrite Hc, Ha, Hl.
Qed.

Lemma match_uuid_at_shaped (u rest : string) :
  Spec.uuid_shaped u -> match_uuid_at (u ++ rest) = Some u.
Proof.
  intros (g1 & g2 & g3 & g4 & g5 & -> & H1 & H2 & H3 & H4 & H5).
  apply ClassFacts.hex_group_code in H1 as [L1 A1], H2 as [L2 A2],
    H3 as [L3 A3], H4 as [L4 A4], H5 as [L5 A5].
  rewrite !StrFacts.append_assoc. unfold match_uuid_at.
  rewrite (take_class_group 8 is_hex g1 _ L1 A1).
  rewrite (proj2 (StrFacts.strip_prefix_iff "-" _ _) eq_refl).
  rewrite (take_class_group 4 is_hex g2 _ L2 A2).
  rewrite (proj2 (StrFacts.strip_prefix_iff "-" _ _) eq_refl).
  rewrite (take_class_group 4 is_hex g3 _ L3 A3).
  rewrite (proj2 (StrFacts.strip_prefix_iff "-" _ _) eq_refl).
  rewrite (take_class_group 4 is_hex g4 _ L4 A4).
  rewrite (proj2 (StrFacts.strip_prefix_iff "-" _ _) eq_refl).
  rewrite (take_class_group 12 is_hex g5 _ L5 A5).
  reflexivity.
Qed.

Lemma match_uuid_at_inv (s u : string) :
  match_uuid_at s = Some u -> exists rest, s = u ++ rest /\ Spec.uuid_shaped u.
Proof.
  unfold match_uuid_at. intros H.
  destruct (Str.take_class 8 is_hex s) as [[g1 s1]|] eqn:T1; [|discriminate].
  destruct (Str.strip_prefix "-" s1) as [s2|] eqn:P1; [|discriminate].
  destruct (Str.take_class 4 is_hex s2) as [[g2 s3]|] eqn:T2; [|discriminate].
  destruct (Str.strip_prefix "-" s3) as [s4|] eqn:P2; [|discriminate].
  destruct (Str.take_class 4 is_hex s4) as [[g3 s5]|] eqn:T3; [|discriminate].
  destruct (Str.strip_prefix "-" s5) as [s6|] eqn:P3; [|discriminate].
  destruct (Str.take_class 4 is_hex s6) as [[g4 s7]|] eqn:T4; [|discriminate].
  destruct (Str.strip_prefix "-" s7) as [s8|] eqn:P4; [|discriminate].
  destruct (Str.take_class 12 is_hex s8) as [[g5 rest]|] eqn:T5; [|discriminate].
  injection H as <-.
  apply take_class_spec in T1 as (-> & L1 & A1).
  apply take_class_spec in T2 as (-> & L2 & A2).
  apply take_class_spec in T3 as (-> & L3 & A3).
  apply take_class_spec in T4 as (-> & L4 & A4).
  apply take_class_spec in T5 as (-> & L5 & A5).
  apply StrFacts.strip_prefix_iff in P1, P2, P3, P4. subst s1 s3 s5 s7.
  exists rest. split.
  - repeat (rewrite StrFacts.append_assoc; cbn [append]). reflexivity.
  - exists g1, g2, g3, g4, g5. split; [reflexivity|].
    refine (conj _ (conj _ (conj _ (conj _ _))));
      apply ClassFacts.hex_group_code; now split.
Qed.

Lemma match_uuid_at_none (s : string) :
  ~ Spec.uuid_at s -> match_uuid_at s = None.
Proof.
  intros H. destruct (match_uuid_at s) as [u|] eqn:E; [|reflexivity].
  destruct (match_uuid_at_inv s u E) as (rest & -> & Hu).
  elim H. now exists u, rest.
Qed.

Lemma match_uuid_at_uuid (s : string) :
  Spec.uuid_at s -> match_uuid_at s <> None.
Proof.
  intros (u & rest & -> & Hu). now rewrite (match_uuid_at_shaped u rest Hu).
Qed.

Lemma nowhere_search {A : Type} (P : string -> Prop) (m : string -> option A)
    (s : string) :
  (forall t, ~ P t -> m t = None) ->
  Spec.nowhere P s -> Str.search m s = None.
Proof.
  intros HP Hno. apply search_none. intros pre suf E.
  apply HP. now apply (Hno pre suf).
Qed.

Lemma search_nowhere {A : Type} (P : string -> Prop) (m : string -> option A)
    (s : string) :
  (forall t, P t -> m t <> None) ->
  Str.search m s = None -> Spec.nowhere P s.
Proof.
  intros HP Hs pre suf E HPs. apply (HP suf HPs).
  now apply (proj2 (search_none m s) Hs pre suf).
Qed.

Lemma first_chars_take (n : nat) :
  forall s t, Spec.first_chars n s t <-> t = Str.take n s.
Proof.
  unfold Spec.first_chars. induction n as [|n IH]; intros s t.
  - simpl. split.
    + intros [_ Hl]. now destruct t.
    + intros ->. split; [now exists s | reflexivity].
  - destruct s as [|c s].
    + simpl. split.
      * intros [_ Hl]. now destruct t.
      * intros ->. split; [now exists "" | reflexivity].
    + cbn [Str.take String.length Nat.min]. split.
      * intros [[rest E] Hl]. destruct t as [|d t]; [discriminate Hl|].
        simpl in E, Hl. injection E as <- E. injection Hl as Hl.
        f_equal. apply IH. split; [now exists rest | exact Hl].
      * intros ->. destruct (proj2 (IH s (Str.take n s)) eq_refl)
          as [[rest E] Hl].
        split; [exists rest; simpl; now rewrite <- E | simpl; now rewrite Hl].
Qed.

End TokenFacts.

(** C7 as it was stated fails where the marker is followed by something
    other than a lower-case id: "RequestId: ABCDEF12 failed" has the marker,
    and its token is the first 6 characters of nothing that follows it. *)
Lemma extractRequestId_capital_id :
  ~ (forall msg,
        Str.contains msg "RequestId: " ->
        exists pre id rest,
          msg = pre ++ "RequestId: " ++ id ++ rest /\ id <> "" /\
          Spec.first_chars 6 id (extractRequestId msg)).
Proof.
  intros H.
  destruct (H "RequestId: ABCDEF12 failed") as (pre & id & rest & E & Hne & Hr).
  - now exists "", "ABCDEF12 failed".
  - destruct id as [|c id]; [now elim Hne|].
    destruct Hr as [[tail Hr] _]. vm_compute in Hr. injection Hr as -> _.
    destruct pre as [|x pre]; [discriminate E|].
    injection E as _ E.
    assert (Hc : Str.contains "equestId: ABCDEF12 failed" "RequestId: ")
      by (exists pre, (String "-" id ++ rest); exact E).
    apply StrFacts.includes_iff in Hc. discriminate Hc.
Qed.

(** C7, amended. The correlation token is: the first 6 characters of the
    id that follows the leftmost "RequestId: " marker, when the message has
    one (a marker being "RequestId: " followed by an id, and the id its
    longest run of lower-case hexadecimal digits and hyphens); otherwise
    the first 6 characters of the leftmost UUID-shaped substring (groups
    of 8, 4, 4, 4 and 12 lower-case hexadecimal digits), when there is
    one; otherwise the placeholder "------". *)
Theorem extractRequestId_token (msg : string) :
  (forall pre id rest,
      msg = pre ++ "RequestId: " ++ id ++ rest ->
      Spec.is_id id -> Spec.ends_id rest ->
      Spec.not_before Spec.marker_at pre ("RequestId: " ++ id ++ rest) ->
      Spec.first_chars 6 id (extractRequestId msg)) /\
  (Spec.nowhere Spec.marker_at msg ->
   forall pre u rest,
     msg = pre ++ u ++ rest ->
     Spec.uuid_shaped u ->
     Spec.not_before Spec.uuid_at pre (u ++ rest) ->
     Spec.first_chars 6 u (extractRequestId msg)) /\
  (Spec.nowhere Spec.marker_at msg ->
   Spec.nowhere Spec.uuid_at msg ->
   extractRequestId msg = Spec.placeholder).
Proof.
  unfold extractRequestId. split; [|split].
  - intros pre id rest -> Hid Hend Hfirst. apply TokenFacts.first_chars_take.
    rewrite (TokenFacts.search_found match_RequestId_at pre _ id);
      [reflexivity | now apply TokenFacts.match_RequestId_at_id |].
    intros p1 p2 E Hp2. apply TokenFacts.match_RequestId_at_none.
    now apply (Hfirst p1 p2).
  - intros Hno pre u rest -> Hu Hfirst. apply TokenFacts.first_chars_take.
    rewrite (TokenFacts.nowhere_search Spec.marker_at match_RequestId_at _
               TokenFacts.match_RequestId_at_none Hno).
    rewrite (TokenFacts.search_found match_uuid_at pre _ u);
      [reflexivity | now apply TokenFacts.match_uuid_at_shaped |].
    intros p1 p2 E Hp2. apply TokenFacts.match_uuid_at_none.
    now apply (Hfirst p1 p2).
  - intros Hno Hnu.
    rewrite (TokenFacts.nowhere_search Spec.marker_at match_RequestId_at _
               TokenFacts.match_RequestId_at_none Hno).
    now rewrite (TokenFacts.nowhere_search Spec.uuid_at match_uuid_at _
                   TokenFacts.match_uuid_at_none Hnu).
Qed.

(** A message with a marker after two characters, one with a bare UUID
    after two characters, and one with neither. *)
Lemma extractRequestId_token_witness :
  extractRequestId "> RequestId: abcdef12-3456 done" = "abcdef" /\
  extractRequestId "> 12345678-1234-1234-1234-123456789abc ok" = "123456" /\
  extractRequestId "hello" = "------".
Proof.
  split; [|split].
  - apply (proj1 (TokenFacts.first_chars_take 6 "abcdef12-3456" _)).
    apply (proj1 (extractRequestId_token _) "> " "abcdef12-3456" " done").
    + reflexivity.
    + split; [discriminate | reflexivity].
    + reflexivity.
    + intros p1 p2 E Hp2 Hm.
      apply TokenFacts.match_RequestId_at_marker in Hm. apply Hm.
      destruct p1 as [|a [|b [|c p1]]]; simpl in E.
      * subst p2. reflexivity.
      * injection E as _ <-. reflexivity.
      * injection E as _ _ <-. now elim Hp2.
      * injection E as _ _ E. destruct p1; discriminate E.
  - apply (proj1 (TokenFacts.first_chars_take 6
                    "12345678-1234-1234-1234-123456789abc" _)).
    apply (proj1 (proj2 (extractRequestId_token _)))
      with (pre := "> ") (u := "12345678-1234-1234-1234-123456789abc")
           (rest := " ok").
    + apply (TokenFacts.search_nowhere _ match_RequestId_at);
        [apply TokenFacts.match_RequestId_at_marker | reflexivity].
    + reflexivity.
    + exists "12345678", "1234", "1234", "1234", "123456789abc".
      unfold Spec.hex_group. repeat split; reflexivity.
    + intros p1 p2 E Hp2 Hm.
      apply TokenFacts.match_uuid_at_uuid in Hm. apply Hm.
      destruct p1 as [|a [|b [|c p1]]]; simpl in E.
      * subst p2. reflexivity.
      * injection E as _ <-. reflexivity.
      * injection E as _ _ <-. now elim Hp2.
      * injection E as _ _ E. destruct p1; discriminate E.
  - apply (proj2 (proj2 (extractRequestId_token _))).
    + apply (TokenFacts.search_nowhere _ match_RequestId_at);
        [apply TokenFacts.match_RequestId_at_marker | reflexivity].
    + apply (TokenFacts.search_nowhere _ match_uuid_at);
        [apply TokenFacts.match_uuid_at_uuid | reflexivity].
Defined.

(** ** The bounded fetch *)

Section FetchFacts.
Context {W : Type} (client : CloudWatchLogsClient W).
Variables (logGroup : string) (filter : option string) (start : Z).

Lemma push_page_events (acc : list FilteredLogEvent)
    (r : FilterLogEventsResponse) :
  match events r with
  | Some (ev :: evs) => (acc ++ ev :: evs)%list
  | _ => acc
  end = (acc ++ Spec.page_events r)%list.
Proof.
  unfold Spec.page_events.
  destruct (events r) as [[|ev evs]|]; now rewrite ?app_nil_r.
Qed.

Lemma fetchLogs_loop_chain token w pages w' :
  Spec.page_chain client logGroup filter start token w pages w' ->
  forall fuel acc,
    (List.length pages <= fuel)%nat ->
    fetchLogs_loop client logGroup filter start fuel acc token w
    = Fetched (acc ++ concat (map Spec.page_events pages))%list w'.
Proof.
  induction 1 as [token w r w' Hsend Htok
                 | token w r w1 t pages w' Hsend Htok Hne _ IH];
    intros [|fuel] acc Hfuel; simpl in Hfuel; try lia;
    cbn [fetchLogs_loop]; fold (Spec.page_request logGroup filter start token);
    rewrite Hsend, push_page_events, Htok; simpl.
  - now rewrite app_nil_r.
  - apply String.eqb_neq in Hne. rewrite Hne. simpl.
    rewrite IH by lia. now rewrite app_assoc.
Qed.

(** A continuation token that is the empty string is falsy: the loop stops
    there, as it does where the token is absent. *)
Lemma fetchLogs_loop_empty_token fuel acc token w r w' :
  send client (Spec.page_request logGroup filter start token) w = (Ok r, w') ->
  response_nextToken r = Some "" ->
  fetchLogs_loop client logGroup filter start (S fuel) acc token w
  = Fetched (acc ++ Spec.page_events r)%list w'.
Proof.
  intros Hsend Htok. cbn [fetchLogs_loop].
  fold (Spec.page_request logGroup filter start token).
  now rewrite Hsend, push_page_events, Htok.
Qed.

(** An error of the source ends the fetch with that error. *)
Lemma fetchLogs_loop_throws fuel acc token w e w' :
  send client (Spec.page_request logGroup filter start token) w = (Err e, w') ->
  fetchLogs_loop client logGroup filter start (S fuel) acc token w
  = Thrown e w'.
Proof.
  intros Hsend. cbn [fetchLogs_loop].
  fold (Spec.page_request logGroup filter start token). now rewrite Hsend.
Qed.

End FetchFacts.

(** C4. When the source answers the bounded fetch with a finite chain of
    pages, the fetch follows the continuation tokens to the page that
    carries none, and returns the events of all the pages, in the order
    the pages arrived and in page order within a page (whenever it is
    given at least one request per page). *)
Theorem fetchLogs_all_pages {W : Type} (client : CloudWatchLogsClient W)
    (logGroup : string) (filter : option string) (start : Z)
    (w w' : W) (pages : list FilterLogEventsResponse) (fuel : nat) :
  Spec.page_chain client logGroup filter start None w pages w' ->
  (List.length pages <= fuel)%nat ->
  fetchLogs client logGroup filter start fuel w
  = Fetched (concat (map Spec.page_events pages)) w'.
Proof.
  intros Hchain Hfuel. unfold fetchLogs.
  now rewrite (fetchLogs_loop_chain client logGroup filter start
                 None w pages w' Hchain fuel [] Hfuel).
Qed.

(** Three pages, the second without events. *)
Lemma fetchLogs_all_pages_witness :
  fetchLogs Examples.paged "/aws/lambda/f" (Some "ERROR") 5 3 tt
  = Fetched [Examples.ev 30 "c"; Examples.ev 10 "a"; Examples.ev 20 "b"] tt.
Proof.
  apply (fetchLogs_all_pages Examples.paged "/aws/lambda/f" (Some "ERROR") 5
           tt tt [Examples.page1; Examples.page2; Examples.page3] 3).
  - eapply Spec.chain_next; [reflexivity | reflexivity | discriminate |].
    eapply Spec.chain_next; [reflexivity | reflexivity | discriminate |].
    eapply Spec.chain_last; reflexivity.
  - simpl. lia.
Defined.

(** ** The streaming loop *)

Module MaxFacts.

Lemma Math_max_ge (xs : list Z) (x : Z) : (x <= Math_max x xs)%Z.
Proof.
  unfold Math_max. revert x; induction xs as [|y xs IH]; intros x; simpl.
  - lia.
  - specialize (IH (Z.max x y)). lia.
Qed.

Lemma Math_max_maximum (xs : list Z) (x : Z) :
  Spec.maximum_of (x :: xs) (Math_max x xs).
Proof.
  unfold Math_max, Spec.maximum_of.
  revert x; induction xs as [|y xs IH]; intros x.
  - simpl. split; [auto | intros z [<-|[]]; lia].
  - cbn [fold_left]. destruct (IH (Z.max x y)) as [Hin Hub]. split.
    + destruct Hin as [Hin|Hin]; [|simpl; auto].
      destruct (Z.max_spec x y) as [[_ E]|[_ E]]; rewrite E in *;
        simpl; auto.
    + intros z [<-|[<-|Hz]].
      * specialize (Hub (Z.max x y) (or_introl eq_refl)). lia.
      * specialize (Hub (Z.max x y) (or_introl eq_refl)). lia.
      * apply Hub. now right.
Qed.

Lemma maximum_of_unique (xs : list Z) (m m' : Z) :
  Spec.maximum_of xs m -> Spec.maximum_of xs m' -> m = m'.
Proof.
  intros [Hin Hub] [Hin' Hub']. specialize (Hub _ Hin'). specialize (Hub' _ Hin).
  lia.
Qed.

Lemma maximum_of_Permutation (xs ys : list Z) (m : Z) :
  Permutation xs ys -> Spec.maximum_of xs m -> Spec.maximum_of ys m.
Proof.
  intros HP [Hin Hub]. split.
  - eapply Permutation_in; eauto.
  - intros y Hy. apply Hub. eapply Permutation_in; [symmetry|]; eauto.
Qed.

Lemma map_timestamp_or_0 (batch : list FilteredLogEvent) :
  map timestamp_or_0 batch
  = map (fun t => nullish_or t 0%Z) (map timestamp batch).
Proof. rewrite map_map. reflexivity. Qed.

Lemma map_nullish_Some (ts : list Z) :
  map (fun t => nullish_or t 0%Z) (map Some ts) = ts.
Proof. rewrite map_map. simpl. apply map_id. Qed.

Lemma all_untimed (batch : list FilteredLogEvent) :
  (forall e, In e batch -> timestamp e = None) ->
  forall z, In z (map timestamp_or_0 batch) -> z = 0%Z.
Proof.
  intros H z Hz. apply in_map_iff in Hz as (e & <- & He).
  unfold timestamp_or_0. now rewrite (H e He).
Qed.

End MaxFacts.

Section StreamFacts.
Context {W : Type} (client : CloudWatchLogsClient W).
Variables (logGroup : string) (filter : option string) (pollMs : Z).

Let iteration := streamLogs_iteration client logGroup filter pollMs.
Let request := Spec.poll_request logGroup filter.

Lemma for_of_yield (batch : list FilteredLogEvent) (s : GenState W) :
  for_of batch yield s
  = (map (fun e => AYield e (currentStartTime s)) batch, Ok (tt, s)).
Proof.
  induction batch as [|e batch IH]; [reflexivity|].
  cbn [for_of map]. unfold bind at 1. cbn [yield]. now rewrite IH.
Qed.

(** A turn whose poll returns a non-empty batch. *)
Lemma iteration_batch cur w r w' ev evs :
  send client (request cur) w = (Ok r, w') ->
  events r = Some (ev :: evs) ->
  let c := (Math_max (timestamp_or_0 ev) (map timestamp_or_0 evs) + 1)%Z in
  iteration (mkGen cur w)
  = (ASend (request cur)
       :: map (fun e => AYield e c) (ev :: evs) ++ [ASleep pollMs],
     Ok (tt, mkGen c w')).
Proof.
  intros Hsend Hev c. subst iteration request.
  unfold streamLogs_iteration, bind, read_cursor, await_send, write_cursor,
    sleep, Spec.poll_request, Spec.page_request in *.
  cbn [currentStartTime world]. rewrite Hsend, Hev.
  rewrite for_of_yield. reflexivity.
Qed.

(** A turn whose poll returns no event. *)
Lemma iteration_empty cur w r w' :
  send client (request cur) w = (Ok r, w') ->
  events r = None \/ events r = Some [] ->
  iteration (mkGen cur w)
  = ([ASend (request cur); ASleep pollMs], Ok (tt, mkGen cur w')).
Proof.
  intros Hsend Hev. subst iteration request.
  unfold streamLogs_iteration, bind, read_cursor, await_send, write_cursor,
    sleep, Spec.poll_request, Spec.page_request in *.
  cbn [currentStartTime world]. rewrite Hsend.
  destruct Hev as [-> | ->]; reflexivity.
Qed.

(** A turn whose poll fails. *)
Lemma iteration_throws cur w e w' :
  send client (request cur) w = (Err e, w') ->
  iteration (mkGen cur w) = ([ASend (request cur)], Err e).
Proof.
  intros Hsend. subst iteration request.
  unfold streamLogs_iteration, bind, read_cursor, await_send,
    Spec.poll_request, Spec.page_request in *.
  cbn [currentStartTime world]. now rewrite Hsend.
Qed.

(** The cursor a turn that returns leaves behind. *)
Lemma iteration_cursor s t s' :
  iteration s = (t, Ok (tt, s')) ->
  exists r w',
    send client (request (currentStartTime s)) (world s) = (Ok r, w') /\
    match events r with
    | Some (ev :: evs) =>
        currentStartTime s'
        = (Math_max (timestamp_or_0 ev) (map timestamp_or_0 evs) + 1)%Z
    | _ => currentStartTime s' = currentStartTime s
    end.
Proof.
  destruct s as [cur w]. cbn [currentStartTime world]. intros H.
  destruct (send client (request cur) w) as [[r|e] w'] eqn:Hsend.
  - exists r, w'. split; [reflexivity|].
    destruct (events r) as [[|ev evs]|] eqn:Hev.
    + rewrite (iteration_empty cur w r w' Hsend (or_intror Hev)) in H.
      now injection H as _ <-.
    + rewrite (iteration_batch cur w r w' ev evs Hsend Hev) in H.
      now injection H as _ <-.
    + rewrite (iteration_empty cur w r w' Hsend (or_introl Hev)) in H.
      now injection H as _ <-.
  - rewrite (iteration_throws cur w e w' Hsend) in H. discriminate.
Qed.

Lemma iteration_monotone s t s' :
  Spec.honours_startTime client ->
  iteration s = (t, Ok (tt, s')) ->
  (currentStartTime s <= currentStartTime s')%Z.
Proof.
  intros Hsrc H. destruct (iteration_cursor s t s' H) as (r & w' & Hsend & Hc).
  destruct (events r) as [[|ev evs]|] eqn:Hev; try lia.
  destruct (Hsrc _ _ _ _ ev evs Hsend Hev) as (e & ts & Hin & Hts & Hle).
  destruct (MaxFacts.Math_max_maximum (map timestamp_or_0 evs) (timestamp_or_0 ev))
    as [_ Hub].
  specialize (Hub (timestamp_or_0 e)).
  change (timestamp_or_0 ev :: map timestamp_or_0 evs)
    with (map timestamp_or_0 (ev :: evs)) in Hub.
  specialize (Hub (in_map _ _ _ Hin)).
  unfold timestamp_or_0 at 1 in Hub. rewrite Hts in Hub. simpl in Hub, Hle.
  lia.
Qed.

Lemma turns_monotone n :
  Spec.honours_startTime client ->
  forall s t s',
    streamLogs_turns client logGroup filter pollMs n s = (t, Ok (tt, s')) ->
    (currentStartTime s <= currentStartTime s')%Z.
Proof.
  intros Hsrc. induction n as [|n IH]; intros s t s' H.
  - injection H as _ <-. lia.
  - cbn [streamLogs_turns] in H. unfold bind in H.
    fold iteration in H.
    destruct (iteration s) as [t1 [[[] s1]|e]] eqn:H1; [|discriminate].
    destruct (streamLogs_turns client logGroup filter pollMs n s1)
      as [t2 r2] eqn:H2.
    injection H as _ ->.
    pose proof (iteration_monotone s t1 s1 Hsrc H1).
    pose proof (IH s1 t2 s' H2). lia.
Qed.

End StreamFacts.

(** C1. When a poll returns a non-empty batch, the turn sets the cursor
    to [m + 1], [m] being the greatest timestamp of the batch (an absent
    timestamp counting as 0; the greatest of the timestamps themselves when
    every event has one), and every event of the batch is handed downstream
    after that, in the order received, with the cursor already at [m + 1];
    a batch with the timestamps 100, 250, 180 in any order gives 251. *)
Theorem streamLogs_cursor_before_emit {W : Type}
    (client : CloudWatchLogsClient W) (logGroup : string)
    (filter : option string) (pollMs cur : Z) (w w' : W)
    (r : FilterLogEventsResponse) (batch : list FilteredLogEvent) :
  send client (Spec.poll_request logGroup filter cur) w = (Ok r, w') ->
  events r = Some batch ->
  batch <> [] ->
  exists m,
    Spec.maximum_of (map timestamp_or_0 batch) m /\
    streamLogs_iteration client logGroup filter pollMs (mkGen cur w)
    = (ASend (Spec.poll_request logGroup filter cur)
         :: map (fun e => AYield e (m + 1)%Z) batch ++ [ASleep pollMs],
       Ok (tt, mkGen (m + 1)%Z w')) /\
    (forall ts, map timestamp batch = map Some ts -> Spec.maximum_of ts m) /\
    (Permutation (map timestamp batch) [Some 100; Some 250; Some 180]%Z ->
     (m + 1 = 251)%Z).
Proof.
  intros Hsend Hev Hne. destruct batch as [|ev evs]; [now elim Hne|].
  pose proof (MaxFacts.Math_max_maximum (map timestamp_or_0 evs)
                (timestamp_or_0 ev)) as Hmax.
  change (timestamp_or_0 ev :: map timestamp_or_0 evs)
    with (map timestamp_or_0 (ev :: evs)) in Hmax.
  set (m := Math_max (timestamp_or_0 ev) (map timestamp_or_0 evs)) in *.
  exists m. split; [exact Hmax|]. split; [|split].
  - exact (iteration_batch client logGroup filter pollMs cur w r w' ev evs
             Hsend Hev).
  - intros ts Hts.
    rewrite MaxFacts.map_timestamp_or_0, Hts, MaxFacts.map_nullish_Some in Hmax.
    exact Hmax.
  - intros HP. rewrite MaxFacts.map_timestamp_or_0 in Hmax.
    apply (Permutation_map (fun t => nullish_or t 0%Z)) in HP.
    apply (MaxFacts.maximum_of_Permutation _ _ _ HP) in Hmax.
    destruct Hmax as [Hin Hub].
    assert (H250 : (250 <= m)%Z) by (apply Hub; simpl; auto).
    simpl in Hin. lia.
Qed.

(** A poll at the cursor 500 that returns the timestamps 100, 250, 180. *)
Lemma streamLogs_cursor_before_emit_witness :
  snd (streamLogs_iteration Examples.scripted "g" None 1000
         (mkGen 500%Z
            [Ok {| events := Some [Examples.ev 100 "a"; Examples.ev 250 "b";
                                   Examples.ev 180 "c"];
                   response_nextToken := None |}]))
  = Ok (tt, mkGen 251%Z []).
Proof.
  destruct (streamLogs_cursor_before_emit Examples.scripted "g" None 1000 500
              [Ok {| events := Some [Examples.ev 100 "a"; Examples.ev 250 "b";
                                     Examples.ev 180 "c"];
                     response_nextToken := None |}]
              []
              {| events := Some [Examples.ev 100 "a"; Examples.ev 250 "b";
                                 Examples.ev 180 "c"];
                 response_nextToken := None |}
              [Examples.ev 100 "a"; Examples.ev 250 "b"; Examples.ev 180 "c"]
              eq_refl eq_refl)
    as (m & _ & Hrun & _ & H251).
  - discriminate.
  - rewrite Hrun. cbn [snd]. rewrite (H251 (Permutation_refl _)). reflexivity.
Defined.

(** C3. When a poll returns an empty or absent batch, the turn sends the
    request and sleeps for the poll interval, and nothing else: no event is
    handed downstream and the cursor keeps its value. *)
Theorem streamLogs_empty_batch {W : Type}
    (client : CloudWatchLogsClient W) (logGroup : string)
    (filter : option string) (pollMs cur : Z) (w w' : W)
    (r : FilterLogEventsResponse) :
  send client (Spec.poll_request logGroup filter cur) w = (Ok r, w') ->
  events r = None \/ events r = Some [] ->
  exists t s',
    streamLogs_iteration client logGroup filter pollMs (mkGen cur w)
    = (t, Ok (tt, s')) /\
    t = [ASend (Spec.poll_request logGroup filter cur); ASleep pollMs] /\
    Spec.yielded t = [] /\
    currentStartTime s' = cur.
Proof.
  intros Hsend Hev.
  exists [ASend (Spec.poll_request logGroup filter cur); ASleep pollMs],
         (mkGen cur w').
  repeat split.
  exact (iteration_empty client logGroup filter pollMs cur w r w' Hsend Hev).
Qed.

(** A poll that returns an empty list, and one that returns no list. *)
Lemma streamLogs_empty_batch_witness :
  (exists t s',
      streamLogs_iteration Examples.scripted "g" None 1000
        (mkGen 500%Z [Ok {| events := Some []; response_nextToken := None |}])
      = (t, Ok (tt, s')) /\
      t = [ASend (Spec.poll_request "g" None 500); ASleep 1000] /\
      Spec.yielded t = [] /\ currentStartTime s' = 500%Z) /\
  (exists t s',
      streamLogs_iteration Examples.scripted "g" None 1000 (mkGen 500%Z [])
      = (t, Ok (tt, s')) /\
      t = [ASend (Spec.poll_request "g" None 500); ASleep 1000] /\
      Spec.yielded t = [] /\ currentStartTime s' = 500%Z).
Proof.
  split.
  - apply (streamLogs_empty_batch Examples.scripted "g" None 1000 500
             [Ok {| events := Some []; response_nextToken := None |}] []
             {| events := Some []; response_nextToken := None |});
      [reflexivity | right; reflexivity].
  - apply (streamLogs_empty_batch Examples.scripted "g" None 1000 500
             [] [] {| events := None; response_nextToken := None |});
      [reflexivity | left; reflexivity].
Defined.

(** The cursor is not non-decreasing over every turn of the loop: at the
    cursor 1000, a batch of one event without a timestamp takes it to 1. *)
Lemma streamLogs_cursor_regresses :
  ~ (forall (W : Type) (client : CloudWatchLogsClient W) (logGroup : string)
            (filter : option string) (pollMs : Z) (s s' : GenState W)
            (t : list Action),
        streamLogs_iteration client logGroup filter pollMs s
        = (t, Ok (tt, s')) ->
        (currentStartTime s <= currentStartTime s')%Z).
Proof.
  intros H.
  specialize (H _ Examples.scripted "g" None 1000%Z
                (mkGen 1000%Z
                   [Ok {| events := Some [Examples.untimed "x"];
                          response_nextToken := None |}])
                (mkGen 1%Z [])
                [ASend (Spec.poll_request "g" None 1000);
                 AYield (Examples.untimed "x") 1; ASleep 1000]
                eq_refl).
  simpl in H. lia.
Qed.

(** C2, amended. Against a source that honours the start time (every
    non-empty batch it returns has an event stamped at or after the start
    time asked for), the cursor is non-decreasing: it is no smaller after a
    turn of the loop than before it, and no smaller after any number of
    turns than the start time the stream was given. *)
Theorem streamLogs_cursor_monotone {W : Type}
    (client : CloudWatchLogsClient W) (logGroup : string)
    (filter : option string) (pollMs : Z) :
  Spec.honours_startTime client ->
  (forall s t s',
      streamLogs_iteration client logGroup filter pollMs s
      = (t, Ok (tt, s')) ->
      (currentStartTime s <= currentStartTime s')%Z) /\
  (forall n start w t s',
      streamLogs client logGroup filter pollMs start n w = (t, Ok (tt, s')) ->
      (start <= currentStartTime s')%Z).
Proof.
  intros Hsrc. split.
  - intros s t s'. now apply iteration_monotone.
  - intros n start w t s' H.
    apply (turns_monotone client logGroup filter pollMs n Hsrc
             (mkGen start w) t s' H).
Qed.

(** Three turns against a source that stamps each event with the start
    time of the poll: the cursor goes from 5 to 8. *)
Lemma streamLogs_cursor_monotone_witness :
  Spec.honours_startTime Examples.ticking /\
  snd (streamLogs Examples.ticking "g" None 1000 5 3 tt)
  = Ok (tt, mkGen 8%Z tt) /\
  (5 <= 8)%Z.
Proof.
  assert (Hsrc : Spec.honours_startTime Examples.ticking).
  { intros params w r w' ev evs Hsend Hev. simpl in Hsend.
    injection Hsend as <- _. simpl in Hev. injection Hev as <- <-.
    exists (Examples.ev (startTime params) "tick"), (startTime params).
    repeat split; [now left | lia]. }
  split; [exact Hsrc|]. split; [reflexivity|].
  destruct (streamLogs_cursor_monotone Examples.ticking "g" None 1000 Hsrc)
    as [_ Hturns].
  exact (Hturns 3%nat 5%Z tt _ (mkGen 8%Z tt) eq_refl).
Defined.

(** C10. In the cursor computation an absent timestamp counts as 0: the
    new cursor is one more than the greatest of the timestamps so read;
    hence a non-empty batch in which no event has a timestamp takes the
    cursor to 1, which is below any previous cursor greater than 1. *)
Theorem streamLogs_absent_timestamp {W : Type}
    (client : CloudWatchLogsClient W) (logGroup : string)
    (filter : option string) (pollMs cur : Z) (w w' : W)
    (r : FilterLogEventsResponse) (batch : list FilteredLogEvent) :
  send client (Spec.poll_request logGroup filter cur) w = (Ok r, w') ->
  events r = Some batch ->
  batch <> [] ->
  exists t s',
    streamLogs_iteration client logGroup filter pollMs (mkGen cur w)
    = (t, Ok (tt, s')) /\
    (exists m,
        Spec.maximum_of
          (map (fun e => match timestamp e with
                         | Some ts => ts
                         | None => 0%Z
                         end) batch) m /\
        currentStartTime s' = (m + 1)%Z) /\
    ((forall e, In e batch -> timestamp e = None) ->
     currentStartTime s' = 1%Z /\
     ((1 < cur)%Z -> (currentStartTime s' < cur)%Z)).
Proof.
  intros Hsend Hev Hne. destruct batch as [|ev evs]; [now elim Hne|].
  pose proof (MaxFacts.Math_max_maximum (map timestamp_or_0 evs)
                (timestamp_or_0 ev)) as Hmax.
  change (timestamp_or_0 ev :: map timestamp_or_0 evs)
    with (map timestamp_or_0 (ev :: evs)) in Hmax.
  set (m := Math_max (timestamp_or_0 ev) (map timestamp_or_0 evs)) in *.
  eexists. exists (mkGen (m + 1)%Z w'). split; [|split].
  - exact (iteration_batch client logGroup filter pollMs cur w r w' ev evs
             Hsend Hev).
  - exists m. split; [exact Hmax | reflexivity].
  - intros Hnone. cbn [currentStartTime].
    assert (Hm : m = 0%Z).
    { apply (MaxFacts.all_untimed (ev :: evs) Hnone). apply Hmax. }
    rewrite Hm. split; [reflexivity | lia].
Qed.

(** At the cursor 1000, a batch of two events without timestamps. *)
Lemma streamLogs_absent_timestamp_witness :
  exists t s',
    streamLogs_iteration Examples.scripted "g" None 1000
      (mkGen 1000%Z
         [Ok {| events := Some [Examples.untimed "x"; Examples.untimed "y"];
                response_nextToken := None |}])
    = (t, Ok (tt, s')) /\
    currentStartTime s' = 1%Z /\ (currentStartTime s' < 1000)%Z.
Proof.
  destruct (streamLogs_absent_timestamp Examples.scripted "g" None 1000 1000
              [Ok {| events := Some [Examples.untimed "x"; Examples.untimed "y"];
                     response_nextToken := None |}]
              []
              {| events := Some [Examples.untimed "x"; Examples.untimed "y"];
                 response_nextToken := None |}
              [Examples.untimed "x"; Examples.untimed "y"]
              eq_refl eq_refl)
    as (t & s' & Hrun & _ & Hnone).
  - discriminate.
  - exists t, s'. split; [exact Hrun|].
    destruct Hnone as [H1 Hlt].
    + intros e [<-|[<-|[]]]; reflexivity.
    + split; [exact H1 | apply Hlt; lia].
Defined.

(** The pattern "timeout" against a message without it, and against a
    message that has it in capitals. *)
Lemma shouldDimLine_iff_witness :
  InteractiveFilter.shouldDimLine
    {| pattern := "timeout"; isActive := true |} "Request OK" = true /\
  InteractiveFilter.shouldDimLine
    {| pattern := "timeout"; isActive := true |} "Gateway TIMEOUT" = false.
Proof.
  split.
  - apply (proj1 shouldDimLine_iff). repeat split.
    + discriminate.
    + intros H. apply StrFacts.contains_ci_lower, StrFacts.includes_iff in H.
      discriminate H.
  - apply not_true_is_false. intros H.
    apply (proj1 shouldDimLine_iff) in H as (_ & _ & Hno). apply Hno.
    exists "Gateway ", "TIMEOUT", "". split; [reflexivity|].
    apply StrFacts.eq_ci_lower. reflexivity.
Defined.

(** ** Dimming *)

Module DimFacts.

Lemma no_ESC_app (a b : string) :
  Spec2.no_ESC (a ++ b) <-> Spec2.no_ESC a /\ Spec2.no_ESC b.
Proof.
  unfold Spec2.no_ESC. induction a as [|c a IH]; simpl.
  - tauto.
  - rewrite !andb_true_iff, IH. tauto.
Qed.

Lemma match_sgr_at_text (c : ascii) (s : string) :
  Ascii.eqb c (ascii_of_nat 27) = false -> match_sgr_at (String c s) = None.
Proof.
  intros H. unfold match_sgr_at.
  destruct (Str.strip_prefix (colors.ESC ++ "[") (String c s)) as [r|] eqn:E;
    [|reflexivity].
  apply StrFacts.strip_prefix_iff in E. injection E as -> _.
  discriminate H.
Qed.

Lemma strip_text (t s : string) :
  Spec2.no_ESC t -> strip_sgr_from 0 (t ++ s) = t ++ strip_sgr_from 0 s.
Proof.
  unfold Spec2.no_ESC. induction t as [|c t IH]; intros H; [reflexivity|].
  simpl in H. apply andb_true_iff in H as [Hc Ht].
  apply negb_true_iff in Hc.
  cbn [append strip_sgr_from]. rewrite (match_sgr_at_text c (t ++ s) Hc).
  now rewrite (IH Ht).
Qed.

Lemma strip_skip (a s : string) :
  strip_sgr_from (String.length a) (a ++ s) = strip_sgr_from 0 s.
Proof. induction a as [|c a IH]; [reflexivity | exact IH]. Qed.

Lemma match_sgr_at_code (params s : string) :
  Str.all is_sgr_param params = true ->
  match_sgr_at (Spec2.sgr params ++ s) = Some (3 + String.length params)%nat.
Proof.
  intros Hp. unfold match_sgr_at, Spec2.sgr.
  assert (E : Str.strip_prefix (colors.ESC ++ "[")
                ((colors.ESC ++ "[" ++ params ++ "m") ++ s)
              = Some (params ++ String "m" s)).
  { apply StrFacts.strip_prefix_iff.
    rewrite !StrFacts.append_assoc. reflexivity. }
  rewrite E.
  rewrite (TimeFacts.span_run is_sgr_param params (String "m" s) Hp eq_refl).
  reflexivity.
Qed.

Lemma strip_code (params s : string) :
  Str.all is_sgr_param params = true ->
  strip_sgr_from 0 (Spec2.sgr params ++ s) = strip_sgr_from 0 s.
Proof.
  intros Hp. pose proof (match_sgr_at_code params s Hp) as Hm.
  unfold Spec2.sgr in *.
  change ((colors.ESC ++ "[" ++ params ++ "m") ++ s)
    with (String (ascii_of_nat 27) (("[" ++ params ++ "m") ++ s)) in *.
  cbn [strip_sgr_from]. rewrite Hm.
  replace (3 + String.length params - 1)%nat
    with (String.length ("[" ++ params ++ "m")).
  - apply strip_skip.
  - rewrite !StrFacts.length_append. simpl. lia.
Qed.

Lemma strip_styled (line plain : string) :
  Spec2.styled line plain -> strip_sgr line = plain.
Proof.
  unfold strip_sgr. induction 1 as [|t line plain Ht _ IH|p line plain Hp _ IH].
  - reflexivity.
  - now rewrite (strip_text t line Ht), IH.
  - now rewrite (strip_code p line Hp).
Qed.

Lemma strip_length (s : string) :
  forall skip, (String.length (strip_sgr_from skip s) <= String.length s)%nat.
Proof.
  induction s as [|c s IH]; intros skip; [simpl; lia|].
  cbn [strip_sgr_from]. destruct skip as [|k].
  - destruct (match_sgr_at (String c s)) as [n|].
    + specialize (IH (n - 1)%nat). simpl. lia.
    + specialize (IH 0%nat). simpl. lia.
  - specialize (IH k). simpl. lia.
Qed.

End DimFacts.

(** X1. A dimmed line carries none of the styling of the formatted line:
    when the formatted line is text without escape characters with styling
    codes put in, the dimmed line is the gray and dim codes, that text and
    the reset code. Text without escape characters is kept as it is, and
    stripping never makes a line longer. *)
Theorem getDimmedLine_plain :
  (forall line plain,
      Spec2.styled line plain ->
      getDimmedLine line
      = colors.gray ++ colors.dim ++ plain ++ colors.reset) /\
  (forall t, Spec2.no_ESC t -> strip_sgr t = t) /\
  (forall s, (String.length (strip_sgr s) <= String.length s)%nat).
Proof.
  repeat split.
  - intros line plain H. unfold getDimmedLine.
    now rewrite (DimFacts.strip_styled line plain H).
  - intros t Ht. unfold strip_sgr.
    pose proof (DimFacts.strip_text t "" Ht) as H.
    now rewrite !StrFacts.append_nil_r in H.
  - intros s. apply DimFacts.strip_length.
Qed.

(** A line with a gray time, a cyan token and an orange word. *)
Lemma getDimmedLine_plain_witness :
  getDimmedLine
    (colors.gray ++ "12:00:01" ++ colors.reset ++ " " ++ colors.cyan ++ "abcdef"
     ++ colors.reset ++ " " ++ colors.orange ++ "failed" ++ colors.reset)
  = colors.gray ++ colors.dim ++ "12:00:01 abcdef failed" ++ colors.reset.
Proof.
  apply (proj1 getDimmedLine_plain).
  apply (Spec2.styled_code "90"); [reflexivity|].
  apply (Spec2.styled_text "12:00:01"); [reflexivity|].
  apply (Spec2.styled_code "0"); [reflexivity|].
  apply (Spec2.styled_text " "); [reflexivity|].
  apply (Spec2.styled_code "36"); [reflexivity|].
  apply (Spec2.styled_text "abcdef"); [reflexivity|].
  apply (Spec2.styled_code "0"); [reflexivity|].
  apply (Spec2.styled_text " "); [reflexivity|].
  apply (Spec2.styled_code "38;5;214"); [reflexivity|].
  apply (Spec2.styled_text "failed"); [reflexivity|].
  apply (Spec2.styled_code "0" "" ""); [reflexivity|].
  apply Spec2.styled_end.
Defined.

(** ** Colors *)

Module ColorFacts.

Lemma char_code_sum_spec (s : string) (acc : nat) :
  char_code_sum acc s
  = (acc + list_sum (map Str.code (list_ascii_of_string s)))%nat.
Proof.
  revert acc; induction s as [|c s IH]; intros acc; simpl.
  - lia.
  - rewrite IH. lia.
Qed.

Lemma list_sum_Permutation (xs ys : list nat) :
  Permutation xs ys -> list_sum xs = list_sum ys.
Proof. induction 1; simpl; lia. Qed.

Lemma level_in_table (msg : string) :
  extractLogLevel msg = Spec.blank_tag
  \/ exists marker, In (marker, extractLogLevel msg) Spec.level_table
                    /\ Str.includes msg marker = true.
Proof.
  unfold extractLogLevel, Spec.level_table.
  repeat match goal with
         | |- context [if Str.includes msg ?m then _ else _] =>
             destruct (Str.includes msg m) eqn:?;
             [right; exists m; split; [simpl; tauto | assumption]|]
         end.
  now left.
Qed.

Lemma level_blank (msg : string) :
  extractLogLevel msg = Spec.blank_tag <->
  forall m t, In (m, t) Spec.level_table -> ~ Str.contains msg m.
Proof.
  split.
  - intros H m t Hin Hc. apply StrFacts.includes_iff in Hc.
    unfold extractLogLevel in H. simpl in Hin.
    repeat (destruct Hin as [[= <- <-]|Hin];
            [repeat match type of H with
                    | (if Str.includes msg ?k then _ else _) = _ =>
                        destruct (Str.includes msg k) eqn:?;
                        try discriminate H
                    end; congruence|]).
    destruct Hin.
  - intros H. destruct (level_in_table msg) as [E|(m & Hin & Hc)];
      [exact E|].
    apply StrFacts.includes_iff in Hc. now elim (H _ _ Hin).
Qed.

End ColorFacts.

(** X2. The color of a correlation token is always one of the five
    colors of the palette, never undefined, and tokens made of the same
    characters in another order get the same color. *)
Theorem getRequestIdColor_palette :
  (forall requestId,
      exists color,
        getRequestIdColor requestId = Some color /\ In color colors_list) /\
  (forall a b,
      Permutation (list_ascii_of_string a) (list_ascii_of_string b) ->
      getRequestIdColor a = getRequestIdColor b).
Proof.
  split.
  - intros requestId. unfold getRequestIdColor.
    set (i := (char_code_sum 0 requestId mod List.length colors_list)%nat).
    assert (Hi : (i < List.length colors_list)%nat)
      by (apply Nat.mod_upper_bound; discriminate).
    destruct (nth_error colors_list i) as [color|] eqn:E.
    + exists color. split; [reflexivity|]. eapply nth_error_In; eauto.
    + apply nth_error_None in E. lia.
  - intros a b HP. unfold getRequestIdColor.
    rewrite !ColorFacts.char_code_sum_spec.
    now rewrite (ColorFacts.list_sum_Permutation _ _
                   (Permutation_map Str.code HP)).
Qed.

(** The tokens "abcdef" and "fedcba". *)
Lemma getRequestIdColor_palette_witness :
  getRequestIdColor "abcdef" = getRequestIdColor "fedcba".
Proof.
  apply (proj2 getRequestIdColor_palette). simpl.
  apply Permutation_rev with (l := ["a"; "b"; "c"; "d"; "e"; "f"]%char).
Defined.

(** X3. The level tag of a message is three characters long, and its
    color is gray exactly when the message has none of the eight markers;
    a message with "ERROR" is tagged in red. *)
Theorem getLogLevelColor_of_message (msg : string) :
  String.length (extractLogLevel msg) = 3%nat /\
  (getLogLevelColor (extractLogLevel msg) = colors.gray <->
   forall m t, In (m, t) Spec.level_table -> ~ Str.contains msg m) /\
  (Str.contains msg "ERROR" ->
   getLogLevelColor (extractLogLevel msg) = colors.red).
Proof.
  split; [|split].
  - destruct (ColorFacts.level_in_table msg) as [E|(m & Hin & _)].
    + now rewrite E.
    + simpl in Hin.
      repeat (destruct Hin as [[= _ <-]|Hin]; [reflexivity|]). destruct Hin.
  - rewrite <- ColorFacts.level_blank.
    destruct (ColorFacts.level_in_table msg) as [E|(m & Hin & _)].
    + rewrite E. split; reflexivity.
    + simpl in Hin.
      repeat (destruct Hin as [[= _ <-]|Hin];
              [split; intros H; discriminate H|]).
      destruct Hin.
  - intros H. apply StrFacts.includes_iff in H.
    unfold extractLogLevel. now rewrite H.
Qed.

(** A message with "ERROR", and one with no marker. *)
Lemma getLogLevelColor_of_message_witness :
  getLogLevelColor (extractLogLevel "x ERROR y") = colors.red /\
  getLogLevelColor (extractLogLevel "hello") = colors.gray.
Proof.
  split.
  - apply (proj2 (proj2 (getLogLevelColor_of_message "x ERROR y"))).
    now exists "x ", " y".
  - apply (proj2 (proj1 (proj2 (getLogLevelColor_of_message "hello")))).
    intros m t Hin. apply StrFacts.includes_false_iff. simpl in Hin.
    repeat (destruct Hin as [[= <- <-]|Hin]; [reflexivity|]).
    destruct Hin.
Defined.

(** X4. A message has error keywords exactly when it contains "fail" or
    "err" in any mix of cases; every message tagged ERR has them. *)
Theorem containsErrorKeywords_iff (msg : string) :
  (containsErrorKeywords msg = true <->
   Spec.contains_ci msg "fail" \/ Spec.contains_ci msg "err") /\
  (extractLogLevel msg = "ERR" -> containsErrorKeywords msg = true).
Proof.
  assert (Hiff : containsErrorKeywords msg = true <->
                 Spec.contains_ci msg "fail" \/ Spec.contains_ci msg "err").
  { unfold containsErrorKeywords.
    rewrite orb_true_iff, !StrFacts.includes_iff, !StrFacts.contains_ci_lower.
    reflexivity. }
  split; [exact Hiff|].
  intros H. apply Hiff. right.
  unfold extractLogLevel in H.
  destruct (Str.includes msg "ERROR") eqn:E.
  - apply StrFacts.includes_iff in E as (pre & post & ->).
    exists pre, "ERR", ("OR" ++ post). split; [reflexivity|].
    now apply StrFacts.eq_ci_lower.
  - repeat match type of H with
           | (if ?b then _ else _) = _ => destruct b; try discriminate H
           end.
Qed.

(** "Transfer FAILED" has a keyword, "all good" has none. *)
Lemma containsErrorKeywords_iff_witness :
  containsErrorKeywords "Transfer FAILED" = true /\
  ~ (Spec.contains_ci "all good" "fail" \/ Spec.contains_ci "all good" "err").
Proof.
  split.
  - apply (proj1 (containsErrorKeywords_iff "Transfer FAILED")). left.
    exists "Transfer ", "FAIL", "ED". split; [reflexivity|].
    now apply StrFacts.eq_ci_lower.
  - intros H. apply (proj1 (containsErrorKeywords_iff "all good")) in H.
    discriminate H.
Defined.

(** X5. The stream that follows the initial fetch starts after every
    event already fetched: when the fetched events are no more than the
    engine accepts as the arguments of one call, its start time is one more
    than the greatest of their timestamps (an absent one counting as 0), so
    greater than each of them; when the initial fetch found nothing it
    starts at the current instant; and when the events are more than one
    call accepts, the computation throws a RangeError and no stream is
    started. *)
Theorem main_streamStartTime_after (max_arguments : nat)
    (initialEvents : list FilteredLogEvent) (now : Z) :
  (initialEvents = [] ->
   main_streamStartTime max_arguments initialEvents now = Ok now) /\
  (initialEvents <> [] ->
   (List.length initialEvents <= max_arguments)%nat ->
   exists start,
     main_streamStartTime max_arguments initialEvents now = Ok start /\
     Spec.maximum_of (map timestamp_or_0 initialEvents) (start - 1) /\
     forall e, In e initialEvents -> (timestamp_or_0 e < start)%Z) /\
  (initialEvents <> [] ->
   (max_arguments < List.length initialEvents)%nat ->
   main_streamStartTime max_arguments initialEvents now = Err "RangeError").
Proof.
  destruct initialEvents as [|ev evs].
  - split; [reflexivity|]. split; intros H; now elim H.
  - pose proof (MaxFacts.Math_max_maximum (map timestamp_or_0 evs)
                  (timestamp_or_0 ev)) as Hmax.
    change (timestamp_or_0 ev :: map timestamp_or_0 evs)
      with (map timestamp_or_0 (ev :: evs)) in Hmax.
    unfold main_streamStartTime. split; [discriminate|]. split.
    + intros _ Hlen. apply Nat.leb_le in Hlen. rewrite Hlen.
      eexists. split; [reflexivity|]. split.
      * now replace (Math_max (timestamp_or_0 ev) (map timestamp_or_0 evs)
                     + 1 - 1)%Z
          with (Math_max (timestamp_or_0 ev) (map timestamp_or_0 evs)) by lia.
      * intros e He. destruct Hmax as [_ Hub].
        specialize (Hub _ (in_map timestamp_or_0 _ _ He)). lia.
    + intros _ Hlen. apply Nat.leb_gt in Hlen. now rewrite Hlen.
Qed.

(** Events stamped 5 and 9 and one without a timestamp, within a limit of
    1000 arguments and beyond a limit of 2. *)
Lemma main_streamStartTime_after_witness :
  main_streamStartTime 1000
    [Examples.ev 5 "a"; Examples.untimed "b"; Examples.ev 9 "c"] 100
  = Ok 10%Z /\
  main_streamStartTime 2
    [Examples.ev 5 "a"; Examples.untimed "b"; Examples.ev 9 "c"] 100
  = Err "RangeError" /\
  main_streamStartTime 1000 [] 100 = Ok 100%Z.
Proof.
  split; [|split].
  - destruct (proj1 (proj2 (main_streamStartTime_after 1000
                [Examples.ev 5 "a"; Examples.untimed "b"; Examples.ev 9 "c"]
                100))) as (start & Hs & _).
    + discriminate.
    + simpl. lia.
    + rewrite Hs. vm_compute in Hs. now symmetry.
  - apply (proj2 (proj2 (main_streamStartTime_after 2 _ 100)));
      [discriminate | simpl; lia].
  - now apply (proj1 (main_streamStartTime_after 1000 [] 100)).
Defined.

(** ** Failures of the source *)

Lemma fetchLogs_loop_failing {W : Type} (client : CloudWatchLogsClient W)
    (logGroup : string) (filter : option string) (start : Z)
    token w n e w' :
  Spec2.failing_chain client logGroup filter start token w n e w' ->
  forall fuel acc,
    (n < fuel)%nat ->
    fetchLogs_loop client logGroup filter start fuel acc token w = Thrown e w'.
Proof.
  induction 1 as [token w e w' Hsend
                 | token w r w1 t n e w' Hsend Htok Hne _ IH];
    intros [|fuel] acc Hfuel; try lia.
  - now apply fetchLogs_loop_throws.
  - cbn [fetchLogs_loop].
    fold (Spec.page_request logGroup filter start token).
    rewrite Hsend, Htok. apply String.eqb_neq in Hne. simpl. rewrite Hne.
    simpl. apply IH. lia.
Qed.

(** X6. An error of the source on any page ends the bounded fetch with
    that error: the events of the pages before it are not returned. *)
Theorem fetchLogs_propagates_error {W : Type}
    (client : CloudWatchLogsClient W) (logGroup : string)
    (filter : option string) (start : Z) (w w' : W) (n fuel : nat)
    (e : string) :
  Spec2.failing_chain client logGroup filter start None w n e w' ->
  (n < fuel)%nat ->
  fetchLogs client logGroup filter start fuel w = Thrown e w'.
Proof.
  intros Hchain Hfuel. unfold fetchLogs.
  exact (fetchLogs_loop_failing client logGroup filter start None w n e w'
           Hchain fuel [] Hfuel).
Qed.

(** A first page with two events, then a failure. *)
Lemma fetchLogs_propagates_error_witness :
  fetchLogs Examples2.broken "g" None 0 5 tt
  = Thrown "ServiceUnavailableException" tt.
Proof.
  apply (fetchLogs_propagates_error Examples2.broken "g" None 0 tt tt 1 5).
  - eapply Spec2.fails_later; [reflexivity | reflexivity | discriminate |].
    apply Spec2.fails_here. reflexivity.
  - lia.
Defined.

Section StreamFacts2.
Context {W : Type} (client : CloudWatchLogsClient W).
Variables (logGroup : string) (filter : option string) (pollMs : Z).

Let iteration := streamLogs_iteration client logGroup filter pollMs.
Let turns := streamLogs_turns client logGroup filter pollMs.
Let request := Spec.poll_request logGroup filter.

(** The three ways a turn can go. *)
Lemma iteration_inv (s : GenState W) :
  (exists r w' ev evs,
      events r = Some (ev :: evs) /\
      let c := (Math_max (timestamp_or_0 ev) (map timestamp_or_0 evs) + 1)%Z in
      iteration s
      = ((ASend (request (currentStartTime s))
            :: map (fun e => AYield e c) (ev :: evs) ++ [ASleep pollMs])%list,
         Ok (tt, mkGen c w'))) \/
  (exists w',
      iteration s
      = ([ASend (request (currentStartTime s)); ASleep pollMs],
         Ok (tt, mkGen (currentStartTime s) w'))) \/
  (exists e,
      iteration s = ([ASend (request (currentStartTime s))], Err e)).
Proof.
  destruct s as [cur w]. cbn [currentStartTime].
  destruct (send client (request cur) w) as [[r|e] w'] eqn:Hsend.
  - destruct (events r) as [[|ev evs]|] eqn:Hev.
    + right; left. exists w'.
      exact (iteration_empty client logGroup filter pollMs cur w r w' Hsend
               (or_intror Hev)).
    + left. exists r, w', ev, evs. split; [exact Hev|].
      exact (iteration_batch client logGroup filter pollMs cur w r w' ev evs
               Hsend Hev).
    + right; left. exists w'.
      exact (iteration_empty client logGroup filter pollMs cur w r w' Hsend
               (or_introl Hev)).
  - right; right. exists e.
    exact (iteration_throws client logGroup filter pollMs cur w e w' Hsend).
Qed.

Lemma turns_succ (n : nat) (s : GenState W) :
  turns (S n) s
  = match iteration s with
    | (t1, Ok (_, s1)) => let (t2, r) := turns n s1 in ((t1 ++ t2)%list, r)
    | (t1, Err e) => (t1, Err e)
    end.
Proof. reflexivity. Qed.

Lemma turns_Forall (P : Action -> Prop) :
  (forall s, Forall P (fst (iteration s))) ->
  forall n s, Forall P (fst (turns n s)).
Proof.
  intros HP. induction n as [|n IH]; intros s.
  - constructor.
  - rewrite turns_succ. specialize (HP s).
    destruct (iteration s) as [t1 [[u s1]|e]]; cbn [fst] in *.
    + specialize (IH s1). destruct (turns n s1) as [t2 r]. cbn [fst] in *.
      apply Forall_app. now split.
    + exact HP.
Qed.

Lemma iteration_yield_behind (s : GenState W) :
  Forall Spec2.yield_behind (fst (iteration s)).
Proof.
  destruct (iteration_inv s) as [(r & w' & ev & evs & _ & H)|[[w' H]|[e H]]];
    rewrite H; cbn [fst]; [|repeat (constructor; try exact I)..].
  constructor; [exact I|].
  apply Forall_app. split; [|constructor; [exact I | constructor]].
  apply Forall_forall. intros a Ha.
  apply in_map_iff in Ha as (x & <- & Hx). simpl.
  destruct (MaxFacts.Math_max_maximum (map timestamp_or_0 evs)
              (timestamp_or_0 ev)) as [_ Hub].
  specialize (Hub (timestamp_or_0 x)
                (in_map timestamp_or_0 (ev :: evs) x Hx)). lia.
Qed.

Lemma iteration_first_page_only (s : GenState W) :
  Forall (Spec2.first_page_only logGroup filter) (fst (iteration s)).
Proof.
  assert (Hreq : forall cur,
             Spec2.first_page_only logGroup filter (ASend (request cur)))
    by (intros cur; repeat split).
  destruct (iteration_inv s) as [(r & w' & ev & evs & _ & H)|[[w' H]|[e H]]];
    rewrite H; cbn [fst];
    [|repeat (constructor; try exact I; try apply Hreq)..].
  constructor; [apply Hreq|].
  apply Forall_app. split; [|constructor; [exact I | constructor]].
  apply Forall_forall. intros a Ha.
  apply in_map_iff in Ha as (x & <- & _). exact I.
Qed.

Lemma turns_first_request (n : nat) (s : GenState W) :
  exists rest,
    fst (turns (S n) s) = ASend (request (currentStartTime s)) :: rest.
Proof.
  rewrite turns_succ.
  destruct (iteration_inv s) as [(r & w' & ev & evs & _ & H)|[[w' H]|[e H]]];
    rewrite H.
  - destruct (turns n _) as [t2 r2]. cbn [fst app]. eauto.
  - destruct (turns n _) as [t2 r2]. cbn [fst app]. eauto.
  - cbn [fst]. eauto.
Qed.

Lemma turns_app (k : nat) :
  forall s0 t s,
    turns k s0 = (t, Ok (tt, s)) ->
    forall m,
      turns (k + m) s0 = let (t2, r) := turns m s in ((t ++ t2)%list, r).
Proof.
  induction k as [|k IH]; intros s0 t s H m.
  - injection H as <- <-. cbn [Nat.add]. now destruct (turns m s0).
  - cbn [Nat.add]. rewrite turns_succ in *.
    destruct (iteration s0) as [t1 [[[] s1]|e1]]; [|discriminate H].
    destruct (turns k s1) as [t2 [[[] s2]|e2]] eqn:E2; [|discriminate H].
    injection H as <- <-. rewrite (IH s1 t2 s2 E2 m).
    destruct (turns m s2) as [t3 r3]. now rewrite app_assoc.
Qed.

Lemma iteration_turn_shape (s s' : GenState W) (t : list Action) :
  iteration s = (t, Ok (tt, s')) -> Spec2.turn_shape pollMs t.
Proof.
  intros H0.
  destruct (iteration_inv s) as [(r & w' & ev & evs & _ & H)|[[w' H]|[e H]]];
    rewrite H in H0.
  - injection H0 as <- _.
    exists (request (currentStartTime s)),
           (map (fun e => AYield e
                   (Math_max (timestamp_or_0 ev) (map timestamp_or_0 evs) + 1)%Z)
                (ev :: evs)).
    split; [reflexivity|]. apply Forall_forall. intros a Ha.
    apply in_map_iff in Ha as (x & <- & _). exact I.
  - injection H0 as <- _. exists (request (currentStartTime s)), [].
    split; [reflexivity | constructor].
  - discriminate H0.
Qed.

Lemma turns_shape (n : nat) :
  forall s t s',
    turns n s = (t, Ok (tt, s')) ->
    exists trs, t = concat trs /\ List.length trs = n /\
                Forall (Spec2.turn_shape pollMs) trs.
Proof.
  induction n as [|n IH]; intros s t s' H.
  - injection H as <- _. exists []. repeat split. constructor.
  - rewrite turns_succ in H.
    destruct (iteration s) as [t1 [[[] s1]|e1]] eqn:H1; [|discriminate H].
    destruct (turns n s1) as [t2 [[[] s2]|e2]] eqn:H2; [|discriminate H].
    injection H as <- <-.
    destruct (IH s1 t2 s2 H2) as (trs & -> & Hlen & Hall).
    exists (t1 :: trs). repeat split; [simpl; lia|].
    constructor; [|exact Hall]. eapply iteration_turn_shape; eauto.
Qed.

End StreamFacts2.

(** X7. A poll that fails ends the stream: when, after any number of
    turns, the source answers the next poll with an error, that error comes
    out of the generator, the failed request is the last thing the stream
    does (no sleep, no retry), and driving the loop for more turns changes
    nothing. *)
Theorem streamLogs_error_is_final {W : Type}
    (client : CloudWatchLogsClient W) (logGroup : string)
    (filter : option string) (pollMs start : Z) (w w' : W) (k : nat)
    (t : list Action) (s : GenState W) (e : string) :
  streamLogs client logGroup filter pollMs start k w = (t, Ok (tt, s)) ->
  send client (Spec.poll_request logGroup filter (currentStartTime s))
    (world s) = (Err e, w') ->
  forall n,
    (k < n)%nat ->
    streamLogs client logGroup filter pollMs start n w
    = ((t ++ [ASend (Spec.poll_request logGroup filter (currentStartTime s))])
         %list,
       Err e).
Proof.
  unfold streamLogs. intros Hk Hsend n Hn.
  replace n with (k + S (n - k - 1))%nat by lia.
  rewrite (turns_app client logGroup filter pollMs k _ t s Hk).
  rewrite (turns_succ client logGroup filter pollMs).
  destruct s as [cur ws]. cbn [currentStartTime world] in *.
  now rewrite (iteration_throws client logGroup filter pollMs cur ws e w' Hsend).
Qed.

(** A good batch, then a throttled poll: five turns end at the second
    request, and the third response is never asked for. *)
Lemma streamLogs_error_is_final_witness :
  streamLogs Examples.scripted "g" None 1000 0 5 Examples2.flaky
  = ([ASend (Spec.poll_request "g" None 0);
      AYield (Examples.ev 100 "a") 101; ASleep 1000;
      ASend (Spec.poll_request "g" None 101)],
     Err "ThrottlingException").
Proof.
  exact (streamLogs_error_is_final Examples.scripted "g" None 1000 0
           Examples2.flaky _ 1 _ (mkGen 101%Z (tl Examples2.flaky))
           "ThrottlingException" eq_refl eq_refl 5%nat ltac:(lia)).
Defined.

(** X8. Every event the stream hands downstream is older than the cursor
    at the moment it is handed downstream, in every turn and whether or not
    the run ends in an error. *)
Theorem streamLogs_yields_behind_cursor {W : Type}
    (client : CloudWatchLogsClient W) (logGroup : string)
    (filter : option string) (pollMs start : Z) (n : nat) (w : W) :
  Forall Spec2.yield_behind
    (fst (streamLogs client logGroup filter pollMs start n w)).
Proof.
  unfold streamLogs. apply turns_Forall. apply iteration_yield_behind.
Qed.

(** X9. The stream asks for the first page only: every request it sends
    carries no continuation token, whatever tokens the responses carry, and
    names the log group and the filter it was given with the limit 10000;
    its first request asks from the start time it was given. *)
Theorem streamLogs_first_page_only {W : Type}
    (client : CloudWatchLogsClient W) (logGroup : string)
    (filter : option string) (pollMs start : Z) (n : nat) (w : W) :
  Forall (Spec2.first_page_only logGroup filter)
    (fst (streamLogs client logGroup filter pollMs start n w)) /\
  exists rest,
    fst (streamLogs client logGroup filter pollMs start (S n) w)
    = ASend {| logGroupName := logGroup; interleaved := true;
               startTime := start; filterPattern := filter;
               limit := 10000; nextToken := None |} :: rest.
Proof.
  unfold streamLogs. split.
  - apply turns_Forall. apply iteration_first_page_only.
  - exact (turns_first_request client logGroup filter pollMs n (mkGen start w)).
Qed.

(** X10. A run of [n] turns that does not fail is [n] rounds of one
    request, the events of its batch, and one sleep of the poll interval:
    the stream never polls twice without sleeping in between. *)
Theorem streamLogs_paced {W : Type}
    (client : CloudWatchLogsClient W) (logGroup : string)
    (filter : option string) (pollMs start : Z) (n : nat) (w : W)
    (t : list Action) (s' : GenState W) :
  streamLogs client logGroup filter pollMs start n w = (t, Ok (tt, s')) ->
  exists rounds,
    t = concat rounds /\ List.length rounds = n /\
    Forall (Spec2.turn_shape pollMs) rounds.
Proof.
  unfold streamLogs.
  apply (turns_shape client logGroup filter pollMs n).
Qed.

(** Two turns against the source that answers every poll with one event. *)
Lemma streamLogs_paced_witness :
  exists rounds,
    fst (streamLogs Examples.ticking "g" None 1000 5 2 tt) = concat rounds /\
    List.length rounds = 2%nat /\
    Forall (Spec2.turn_shape 1000) rounds.
Proof.
  exact (streamLogs_paced Examples.ticking "g" None 1000 5 2 tt _
           (mkGen 7%Z tt) eq_refl).
Defined.

(** ** Typing into the filter *)

Module KeyFacts.
Import InteractiveFilter.

Lemma take_length_append (p q : string) : Str.take (String.length p) (p ++ q) = p.
Proof.
  induction p as [|c p IH]; simpl.
  - now destruct q.
  - now rewrite IH.
Qed.

Lemma drop_last_append_char (p : string) (c : ascii) :
  Str.drop_last (p ++ String c "") = p.
Proof.
  unfold Str.drop_last. rewrite StrFacts.length_append. simpl.
  replace (String.length p + 1 - 1)%nat with (String.length p) by lia.
  apply take_length_append.
Qed.

Lemma take_prefix (n : nat) (s : string) : exists r, s = Str.take n s ++ r.
Proof.
  revert s; induction n as [|n IH]; intros s.
  - now exists s.
  - destruct s as [|c s]; [now exists ""|].
    destruct (IH s) as [r Hr]. exists r. simpl. now rewrite <- Hr.
Qed.

Lemma all_append (p : ascii -> bool) (a b : string) :
  Str.all p (a ++ b) = Str.all p a && Str.all p b.
Proof.
  induction a as [|c a IH]; simpl; [reflexivity|].
  now rewrite IH, andb_assoc.
Qed.

Lemma all_take (p : ascii -> bool) (n : nat) (s : string) :
  Str.all p s = true -> Str.all p (Str.take n s) = true.
Proof.
  intros H. destruct (take_prefix n s) as [r Hr]. rewrite Hr in H.
  rewrite all_append in H. now apply andb_true_iff in H as [H _].
Qed.

Lemma contains_prefix (s a b : string) :
  Str.contains s (a ++ b) -> Str.contains s a.
Proof.
  intros (pre & post & ->). exists pre, (b ++ post).
  now rewrite StrFacts.append_assoc.
Qed.

Lemma handleKeyPress_printable (key : string) (fs : FilterState) :
  Spec.printable key -> handleKeyPress key fs = Handled (addToFilter key fs).
Proof.
  intros (c & -> & Hc).
  destruct c as [[] [] [] [] [] [] [] []]; try discriminate Hc; reflexivity.
Qed.

(** The key that reaches [addToFilter] is a printable character. *)
Lemma handleKeyPress_add_printable (c : ascii) :
  String.leb " " (String c "") && String.leb (String c "") "~" = true ->
  Str.in_range " " "~" c = true.
Proof.
  destruct c as [[] [] [] [] [] [] [] []]; intros H; try discriminate H;
    reflexivity.
Qed.

Lemma not_single (keyStr : string) (c : ascii) :
  String.length keyStr <> 1%nat -> (keyStr =? String c "") = false.
Proof. intros H. apply String.eqb_neq. intros ->. now elim H. Qed.

Lemma handleKeyPress_printable_pattern (keyStr : string) (fs fs' : FilterState)
    (out : list string) :
  handleKeyPress keyStr fs = Handled (fs', out) ->
  Spec2.printable_pattern fs -> Spec2.printable_pattern fs'.
Proof.
  unfold handleKeyPress, Spec2.printable_pattern. intros H Hfs.
  assert (Hbs : Str.all (Str.in_range " " "~")
                  (pattern (fst (handleBackspace fs))) = true).
  { unfold handleBackspace.
    destruct (0 <? String.length (pattern fs))%nat; [|exact Hfs].
    cbn [pattern fst].
    destruct (String.length (Str.drop_last (pattern fs)) =? 0)%nat;
      cbn [pattern]; now apply all_take. }
  repeat match type of H with
         | (if ?b then _ else _) = _ => destruct b eqn:?
         end; try discriminate; apply FilterFacts.Handled_fst in H;
    rewrite <- H; try exact Hbs; try reflexivity; try exact Hfs.
  cbn [addToFilter fst pattern]. rewrite all_append, Hfs. simpl.
  destruct keyStr as [|c [|d k]]; try discriminate.
  simpl. rewrite andb_true_r. apply handleKeyPress_add_printable.
  match goal with
  | E : _ && _ && _ = true |- _ =>
      rewrite <- andb_assoc in E; now apply andb_true_iff in E as [_ E]
  end.
Qed.

Lemma handleKeys_printable_pattern (keys : list string) :
  forall fs fs' out st,
    handleKeys keys fs = (fs', out, st) ->
    Spec2.printable_pattern fs -> Spec2.printable_pattern fs'.
Proof.
  induction keys as [|k keys IH]; intros fs fs' out st H Hfs; simpl in H.
  - now injection H as <- _ _.
  - destruct (handleKeyPress k fs) as [status | [fs1 out1]] eqn:Hk.
    + now injection H as <- _ _.
    + destruct (handleKeys keys fs1) as [[fs2 out2] st2] eqn:Hks.
      injection H as <- _ _.
      eapply IH; [exact Hks|]. eapply handleKeyPress_printable_pattern; eauto.
Qed.

Lemma handleKeys_typed (keys : list string) :
  Forall Spec.printable keys ->
  forall fs fs' out st,
    handleKeys keys fs = (fs', out, st) ->
    pattern fs' = pattern fs ++ fold_right append "" keys /\
    st = None /\
    (keys <> [] -> isActive fs' = true).
Proof.
  induction 1 as [|k keys Hk _ IH]; intros fs fs' out st H; simpl in H.
  - injection H as <- _ <-. rewrite StrFacts.append_nil_r. repeat split.
    intros E. now elim E.
  - rewrite (handleKeyPress_printable k fs Hk) in H.
    cbn [addToFilter] in H.
    destruct (handleKeys keys _) as [[fs2 out2] st2] eqn:Hks.
    injection H as <- _ <-.
    destruct (IH _ _ _ _ Hks) as (Hp & Hst & Hact). cbn [pattern] in Hp.
    split; [|split].
    + rewrite Hp. cbn [fold_right]. now rewrite StrFacts.append_assoc.
    + exact Hst.
    + intros _. destruct keys as [|k2 keys]; [|apply Hact; discriminate].
      simpl in Hks. now injection Hks as <- _ _.
Qed.

End KeyFacts.

(** X11. Typing printable characters spells the pattern: from any state,
    after a sequence of printable keys the pattern is the old pattern
    followed by the keys in the order typed, the process has not exited,
    and the filter is active as soon as one key was typed. *)
Theorem handleKeys_spells_pattern (keys : list string)
    (fs fs' : FilterState) (out : list string) (st : option Z) :
  Forall Spec.printable keys ->
  InteractiveFilter.handleKeys keys fs = (fs', out, st) ->
  pattern fs' = pattern fs ++ fold_right append "" keys /\
  st = None /\
  (keys <> [] -> isActive fs' = true).
Proof. intros Hk H. exact (KeyFacts.handleKeys_typed keys Hk fs fs' out st H). Qed.

(** The keys t, i, m typed into the empty filter. *)
Lemma handleKeys_spells_pattern_witness :
  pattern (fst (fst (InteractiveFilter.handleKeys ["t"; "i"; "m"]
                       InteractiveFilter.initial))) = "tim".
Proof.
  destruct (InteractiveFilter.handleKeys ["t"; "i"; "m"]
              InteractiveFilter.initial) as [[fs out] st] eqn:E.
  refine (proj1 (handleKeys_spells_pattern ["t"; "i"; "m"]
                   InteractiveFilter.initial fs out st _ E)).
  repeat constructor; (eexists; split; [reflexivity | reflexivity]).
Defined.

(** X12. Backspace undoes a typed character: after a printable key and a
    backspace the pattern is what it was, and so is the whole filter state
    when its flag was the non-emptiness of its pattern. *)
Theorem handleBackspace_undoes_key (key : string) (fs : FilterState) :
  Spec.printable key ->
  let fs' := fst (InteractiveFilter.handleBackspace
                    (fst (InteractiveFilter.addToFilter key fs))) in
  pattern fs' = pattern fs /\ (Spec.flag_is_derived fs -> fs' = fs).
Proof.
  intros (c & -> & _). destruct fs as [p act].
  unfold InteractiveFilter.handleBackspace, InteractiveFilter.addToFilter.
  cbn [fst pattern isActive].
  assert (Hlen : (0 <? String.length (p ++ String c ""))%nat = true).
  { apply Nat.ltb_lt. rewrite StrFacts.length_append. simpl. lia. }
  rewrite Hlen, KeyFacts.drop_last_append_char. cbn [fst].
  destruct (String.length p =? 0)%nat eqn:E; cbn [pattern].
  - split; [reflexivity|]. unfold Spec.flag_is_derived. simpl.
    apply Nat.eqb_eq in E. apply FilterFacts.length_0_empty in E. subst p.
    now intros ->.
  - split; [reflexivity|]. unfold Spec.flag_is_derived. simpl.
    rewrite FilterFacts.eqb_empty_length, E. now intros ->.
Qed.

(** The key x typed after "tim", and taken back. *)
Lemma handleBackspace_undoes_key_witness :
  fst (InteractiveFilter.handleBackspace
         (fst (InteractiveFilter.addToFilter "x"
                 {| pattern := "tim"; isActive := true |})))
  = {| pattern := "tim"; isActive := true |}.
Proof.
  apply (handleBackspace_undoes_key "x" {| pattern := "tim"; isActive := true |}).
  - exists "x"%char. split; reflexivity.
  - reflexivity.
Defined.

(** X13. A longer pattern dims at least as much: a line that is dimmed
    stays dimmed when a character is added to the pattern, and a line that
    is dimmed after a backspace was dimmed before it. *)
Theorem shouldDimLine_monotone (fs : FilterState) (msg : string) :
  (forall char,
      char <> "" ->
      InteractiveFilter.shouldDimLine fs msg = true ->
      InteractiveFilter.shouldDimLine
        (fst (InteractiveFilter.addToFilter char fs)) msg = true) /\
  (InteractiveFilter.shouldDimLine
     (fst (InteractiveFilter.handleBackspace fs)) msg = true ->
   InteractiveFilter.shouldDimLine fs msg = true).
Proof.
  assert (Hlonger : forall a b,
             Str.includes (Str.toLowerCase msg) (Str.toLowerCase a) = false ->
             Str.includes (Str.toLowerCase msg) (Str.toLowerCase (a ++ b))
             = false).
  { intros a b H. apply StrFacts.includes_false_iff.
    apply StrFacts.includes_false_iff in H. intros Hc. apply H.
    rewrite StrFacts.toLowerCase_append in Hc.
    now apply KeyFacts.contains_prefix in Hc. }
  destruct fs as [p act]. unfold InteractiveFilter.shouldDimLine. split.
  - intros char Hchar. cbn [InteractiveFilter.addToFilter fst pattern isActive].
    destruct (negb act || (p =? "")) eqn:E; [discriminate|]. intros H.
    assert (Hne : (p ++ char =? "") = false).
    { apply String.eqb_neq. destruct p; [exact Hchar | discriminate]. }
    rewrite Hne. simpl. apply negb_true_iff in H. apply negb_true_iff.
    now apply Hlonger.
  - unfold InteractiveFilter.handleBackspace. cbn [pattern isActive].
    destruct (0 <? String.length p)%nat eqn:Hlen; [|auto].
    cbn [fst].
    destruct (String.length (Str.drop_last p) =? 0)%nat eqn:E;
      cbn [pattern isActive]; [discriminate|].
    destruct (negb act || (Str.drop_last p =? "")) eqn:E1; [discriminate|].
    apply orb_false_iff in E1 as [Hact _]. rewrite Hact.
    assert (Hp : (p =? "") = false).
    { apply String.eqb_neq. intros ->. discriminate Hlen. }
    rewrite Hp. simpl. intros H. apply negb_true_iff in H.
    apply negb_true_iff.
    destruct (KeyFacts.take_prefix (String.length p - 1) p) as [r Hr].
    fold (Str.drop_last p) in Hr. rewrite Hr. now apply Hlonger.
Qed.

(** "OK" is dimmed under "tim", and stays so under "time". *)
Lemma shouldDimLine_monotone_witness :
  InteractiveFilter.shouldDimLine
    (fst (InteractiveFilter.addToFilter "e"
            {| pattern := "tim"; isActive := true |})) "OK" = true.
Proof.
  apply (proj1 (shouldDimLine_monotone
                  {| pattern := "tim"; isActive := true |} "OK"));
    [discriminate | reflexivity].
Defined.

(** X14. Input that is not a single code unit is ignored unless it is the
    delete sequence: pasted text, arrow keys and other escape sequences
    leave the filter as it was and write nothing. *)
Theorem handleKeyPress_ignores (keyStr : string) (fs : FilterState) :
  String.length keyStr <> 1%nat ->
  keyStr <> colors.ESC ++ "[3~" ->
  InteractiveFilter.handleKeyPress keyStr fs
  = InteractiveFilter.Handled (fs, []).
Proof.
  intros Hlen Hdel. unfold InteractiveFilter.handleKeyPress.
  rewrite !(KeyFacts.not_single keyStr _ Hlen).
  unfold colors.ESC at 2. rewrite (KeyFacts.not_single keyStr _ Hlen).
  apply String.eqb_neq in Hdel. rewrite Hdel.
  apply Nat.eqb_neq in Hlen. rewrite Hlen. reflexivity.
Qed.

(** The arrow-up sequence and a pasted word. *)
Lemma handleKeyPress_ignores_witness :
  InteractiveFilter.handleKeyPress (colors.ESC ++ "[A")
    {| pattern := "tim"; isActive := true |}
  = InteractiveFilter.Handled ({| pattern := "tim"; isActive := true |}, []) /\
  InteractiveFilter.handleKeyPress "error"
    {| pattern := "tim"; isActive := true |}
  = InteractiveFilter.Handled ({| pattern := "tim"; isActive := true |}, []).
Proof.
  split; apply handleKeyPress_ignores; discriminate.
Defined.

(** X15. The pattern only ever holds printable characters, from the space
    to the tilde, whatever is typed, pasted or sent as control input. *)
Theorem pattern_stays_printable (keys : list string) (fs : FilterState)
    (out : list string) (st : option Z) :
  InteractiveFilter.handleKeys keys InteractiveFilter.initial = (fs, out, st) ->
  Spec2.printable_pattern fs.
Proof.
  intros H.
  exact (KeyFacts.handleKeys_printable_pattern keys
           InteractiveFilter.initial fs out st H eq_refl).
Qed.

(** A letter, a tab, a pasted word, a letter, an escape sequence. *)
Lemma pattern_stays_printable_witness :
  Spec2.printable_pattern
    (fst (fst (InteractiveFilter.handleKeys
                 ["a"; String (ascii_of_nat 9) ""; "pasted"; "Z";
                  colors.ESC ++ "[A"]
                 InteractiveFilter.initial))).
Proof.
  destruct (InteractiveFilter.handleKeys _ _) as [[fs out] st] eqn:E.
  exact (pattern_stays_printable _ fs out st E).
Defined.

(** ** More on the lookback and the token *)

Module MoreFacts.

(** From [2^53] on, the nearest double is no smaller than [2^53]. *)
Lemma round_nonneg_large (z : Z) :
  (TWO_53 <= z)%Z -> (TWO_53 <= round_nonneg z)%Z.
Proof.
  intros Hz. unfold round_nonneg.
  replace (z <? TWO_53)%Z with false by (symmetry; apply Z.ltb_ge; exact Hz).
  assert (Hlog : (53 <= Z.log2 z)%Z)
    by (change 53%Z with (Z.log2 TWO_53); now apply Z.log2_le_mono).
  assert (Hpos : (0 < z)%Z) by (unfold TWO_53 in Hz; lia).
  destruct (Z.log2_spec z Hpos) as [Hlow _].
  set (e := (Z.log2 z - 52)%Z) in *.
  replace (Z.log2 z) with (52 + e)%Z in Hlow by (unfold e; lia).
  rewrite Z.pow_add_r in Hlow by (unfold e; lia).
  assert (HP : (2 <= 2 ^ e)%Z).
  { change 2%Z with (2 ^ 1)%Z at 1. apply Z.pow_le_mono_r; unfold e; lia. }
  change (2 ^ 52)%Z with 4503599627370496%Z in Hlow.
  set (P := (2 ^ e)%Z) in *.
  assert (Hq : (4503599627370496 <= z / P)%Z)
    by (apply Z.div_le_lower_bound; lia).
  set (q := (z / P)%Z) in *. unfold TWO_53.
  destruct (z mod P <? 2 ^ (e - 1))%Z; [nia|].
  destruct (2 ^ (e - 1) <? z mod P)%Z; [nia|].
  destruct (Z.even q); nia.
Qed.

(** The double of a non-negative integer: the integer itself below
    [2^53]; from there on an infinity or a double no smaller than [2^53]. *)
Lemma to_double_nonneg (z : Z) :
  (0 <= z)%Z ->
  ((z < TWO_53)%Z /\ to_double z = Finite z) \/
  ((TWO_53 <= z)%Z /\
   (to_double z = PosInfinity \/
    exists v, to_double z = Finite v /\ (TWO_53 <= v)%Z)).
Proof.
  intros Hz. destruct (Z.lt_ge_cases z TWO_53) as [Hlt|Hge].
  - left. split; [exact Hlt|]. apply TimeFacts.to_double_exact.
    unfold TWO_53 in *. lia.
  - right. split; [exact Hge|]. unfold to_double.
    replace (0 <=? z)%Z with true by (symmetry; apply Z.leb_le; exact Hz).
    destruct (round_nonneg z <? DOUBLE_LIMIT)%Z; [right | now left].
    exists (round_nonneg z). split; [reflexivity|].
    now apply round_nonneg_large.
Qed.

(** The double of a negative integer. *)
Lemma to_double_neg (z : Z) :
  (z < 0)%Z ->
  ((- TWO_53 < z)%Z /\ to_double z = Finite z) \/
  (to_double z = NegInfinity \/
   exists v, to_double z = Finite v /\ (v <= - TWO_53)%Z).
Proof.
  intros Hz. destruct (Z.lt_ge_cases (- TWO_53) z) as [Hlt|Hge].
  - left. split; [exact Hlt|]. apply TimeFacts.to_double_exact.
    unfold TWO_53 in *. lia.
  - right. unfold to_double.
    replace (0 <=? z)%Z with false by (symmetry; apply Z.leb_gt; exact Hz).
    destruct (round_nonneg (- z) <? DOUBLE_LIMIT)%Z; [right | now left].
    exists (- round_nonneg (- z))%Z. split; [reflexivity|].
    assert (TWO_53 <= round_nonneg (- z))%Z
      by (apply round_nonneg_large; lia).
    lia.
Qed.

Lemma multipliers_thousands (unit : TimeUnit) :
  exists k, (0 < k)%Z /\ multipliers unit = (k * 1000)%Z.
Proof.
  destruct unit; [exists 1%Z | exists 60%Z | exists 3600%Z | exists 86400%Z];
    split; reflexivity.
Qed.

Lemma search_suffix {A : Type} (m : string -> option A) (s : string) (r : A) :
  Str.search m s = Some r -> exists pre suf, s = pre ++ suf /\ m suf = Some r.
Proof.
  induction s as [|c s IH]; simpl.
  - destruct (m "") eqn:E; [|discriminate]. intros [= ->]. now exists "", "".
  - destruct (m (String c s)) eqn:E.
    + intros [= ->]. now exists "", (String c s).
    + intros H. destruct (IH H) as (pre & suf & -> & Hm).
      now exists (String c pre), suf.
Qed.

Lemma match_RequestId_at_is_id (s id : string) :
  match_RequestId_at s = Some id -> Spec.is_id id.
Proof.
  unfold match_RequestId_at.
  destruct (Str.strip_prefix "RequestId: " s) as [rest|]; [|discriminate].
  destruct (Str.span is_id_char rest) as [r t] eqn:Hsp.
  apply TimeFacts.span_spec in Hsp as (_ & Hall & _). simpl fst.
  destruct r as [|c r]; [discriminate|]. intros [= <-].
  apply ClassFacts.is_id_code. split; [discriminate | exact Hall].
Qed.

Lemma length_take (n : nat) (s : string) :
  String.length (Str.take n s) = Nat.min n (String.length s).
Proof.
  revert s; induction n as [|n IH]; intros [|c s]; simpl; auto.
Qed.

Lemma all_weaken (p q : ascii -> bool) (s : string) :
  (forall c, p c = true -> q c = true) ->
  Str.all p s = true -> Str.all q s = true.
Proof.
  intros Hpq. induction s as [|c s IH]; simpl; [reflexivity|].
  rewrite !andb_true_iff. intros [Hc Hs]. auto.
Qed.

Lemma uuid_shaped_id (u : string) :
  Spec.uuid_shaped u ->
  String.length u = 36%nat /\ Str.all is_id_char u = true.
Proof.
  intros (g1 & g2 & g3 & g4 & g5 & -> & H1 & H2 & H3 & H4 & H5).
  apply ClassFacts.hex_group_code in H1 as [L1 A1], H2 as [L2 A2],
    H3 as [L3 A3], H4 as [L4 A4], H5 as [L5 A5].
  assert (Hw : forall g, Str.all is_hex g = true -> Str.all is_id_char g = true).
  { intros g. apply all_weaken. intros c Hc. unfold is_id_char. now rewrite Hc. }
  split.
  - rewrite !StrFacts.length_append, L1, L2, L3, L4, L5. reflexivity.
  - rewrite !KeyFacts.all_append, (Hw _ A1), (Hw _ A2), (Hw _ A3), (Hw _ A4),
      (Hw _ A5). reflexivity.
Qed.

End MoreFacts.

(** X16. A lookback is never negative: whenever the parser returns, the
    value is plus infinity or a number that is not negative, and a multiple
    of 1000 when it is a safe integer; so the start time [main] derives
    from it at an instant [now] is minus infinity or a number that is not
    after [now]. *)
Theorem parseTimeFormat_nonnegative (s : string) :
  (forall v,
      parseTimeFormat s = Ok v ->
      v = PosInfinity \/
      exists z, v = Finite z /\ (0 <= z)%Z /\
                ((z <= Spec.MAX_SAFE_INTEGER)%Z -> (z mod 1000 = 0)%Z)) /\
  (forall now startTime,
      Spec.time_value now ->
      main_since now s = StartAt startTime ->
      startTime = NegInfinity \/
      exists z, startTime = Finite z /\ (z <= now)%Z).
Proof.
  assert (H : forall v, parseTimeFormat s = Ok v ->
            v = PosInfinity \/
            exists z, v = Finite z /\ (0 <= z)%Z /\
                      ((z <= Spec.MAX_SAFE_INTEGER)%Z -> (z mod 1000 = 0)%Z)).
  { intros v. unfold parseTimeFormat, parseInt10.
    destruct (match_time s) as [[amount unit]|] eqn:Hm; [|discriminate].
    destruct (TimeFacts.match_time_inv _ _ _ Hm) as (u & _ & _ & Hall & _).
    rewrite ClassFacts.all_digits_code in Hall.
    rewrite (TimeFacts.digits_value_decimal amount Hall).
    pose proof (TimeFacts.decimal_nonneg amount) as Hd.
    destruct (MoreFacts.multipliers_thousands unit) as (k & Hk & ->).
    intros [= <-]. unfold Spec.MAX_SAFE_INTEGER.
    assert (Hbig : forall x, (TWO_53 <= x)%Z ->
              Number_times (Finite x) (k * 1000) = PosInfinity \/
              exists z, Number_times (Finite x) (k * 1000) = Finite z /\
                        (TWO_53 <= z)%Z).
    { intros x Hx. cbn [Number_times].
      destruct (MoreFacts.to_double_nonneg (x * (k * 1000)))
        as [[Hlt _]|[_ Hr]]; [unfold TWO_53 in *; nia | | exact Hr].
      unfold TWO_53 in *. nia. }
    destruct (MoreFacts.to_double_nonneg (Spec.decimal amount) Hd)
      as [[Hlt ->]|[Hge [->|(v0 & -> & Hv0)]]].
    - cbn [Number_times].
      destruct (MoreFacts.to_double_nonneg (Spec.decimal amount * (k * 1000)))
        as [[Hlt2 ->]|[Hge2 [->|(v & -> & Hv)]]]; [nia | | now left |].
      + right. eexists. split; [reflexivity|]. split; [nia|]. intros _.
        rewrite Z.mul_assoc. apply Z_mod_mult.
      + right. exists v. split; [reflexivity|]. unfold TWO_53 in Hv.
        split; lia.
    - now left.
    - destruct (Hbig v0 Hv0) as [->|(z & -> & Hz)]; [now left|].
      right. exists z. split; [reflexivity|]. unfold TWO_53 in Hz.
      split; lia. }
  split; [exact H|].
  intros now startTime [Hn1 Hn2]. unfold main_since.
  destruct (parseTimeFormat s) as [v|e]; [|discriminate].
  intros [= <-]. destruct (H v eq_refl) as [->|(z & -> & Hz & _)];
    [now left|].
  cbn [Number_minus]. destruct (Z.lt_ge_cases (now - z) 0) as [Hneg|Hpos].
  - destruct (MoreFacts.to_double_neg (now - z) Hneg)
      as [[_ ->]|[->|(v & -> & Hv)]]; [| now left |].
    + right. exists (now - z)%Z. split; [reflexivity | lia].
    + right. exists v. split; [reflexivity|]. unfold TWO_53 in Hv. lia.
  - right. exists (now - z)%Z. split; [|lia].
    apply TimeFacts.to_double_exact. unfold TWO_53. lia.
Qed.

(** "90m" at the instant 10000000, and a lookback of 72057594037929
    seconds, which is beyond the safe integers and no multiple of 1000. *)
Lemma parseTimeFormat_nonnegative_witness :
  (parseTimeFormat "90m" = Ok (Finite 5400000) /\
   (5400000 mod 1000 = 0)%Z) /\
  (parseTimeFormat "72057594037929s" = Ok (Finite 72057594037928992) /\
   (0 <= 72057594037928992)%Z) /\
  (main_since 10000000 "90m" = StartAt (Finite 4600000) /\
   (4600000 <= 10000000)%Z).
Proof.
  split; [|split].
  - split; [reflexivity|].
    destruct (proj1 (parseTimeFormat_nonnegative "90m") _ eq_refl)
      as [H|(z & [= <-] & _ & Hmod)]; [discriminate H|].
    apply Hmod. vm_compute. discriminate.
  - split; [vm_compute; reflexivity|].
    destruct (proj1 (parseTimeFormat_nonnegative "72057594037929s")
                (Finite 72057594037928992) ltac:(vm_compute; reflexivity))
      as [H|(z & [= <-] & Hz & _)]; [discriminate H | exact Hz].
  - split; [reflexivity|].
    destruct (proj2 (parseTimeFormat_nonnegative "90m") 10000000%Z
                (Finite 4600000)) as [H|(z & [= <-] & Hz)];
      [unfold Spec.time_value; lia | reflexivity | discriminate H | exact Hz].
Defined.

(** X17. The correlation token of any message is one to six characters,
    each a lower-case hexadecimal digit or a hyphen; it is exactly six
    characters unless it comes from a "RequestId: " marker with a shorter
    id. *)
Theorem extractRequestId_shape (msg : string) :
  (1 <= String.length (extractRequestId msg) <= 6)%nat /\
  Str.all is_id_char (extractRequestId msg) = true /\
  (Spec.nowhere Spec.marker_at msg ->
   String.length (extractRequestId msg) = 6%nat).
Proof.
  assert (Htake : forall id, Spec.is_id id ->
            (1 <= String.length (Str.take 6 id) <= 6)%nat /\
            Str.all is_id_char (Str.take 6 id) = true).
  { intros id Hid. apply ClassFacts.is_id_code in Hid as [Hne Hall].
    split; [|now apply KeyFacts.all_take].
    rewrite MoreFacts.length_take. destruct id; [now elim Hne|].
    cbn [String.length]. lia. }
  assert (Huuid : forall u, Spec.uuid_shaped u ->
            String.length (Str.take 6 u) = 6%nat /\
            Str.all is_id_char (Str.take 6 u) = true).
  { intros u Hu. destruct (MoreFacts.uuid_shaped_id u Hu) as [Hl Ha].
    split; [|now apply KeyFacts.all_take].
    rewrite MoreFacts.length_take, Hl. reflexivity. }
  unfold extractRequestId.
  destruct (Str.search match_RequestId_at msg) as [id|] eqn:E.
  - apply MoreFacts.search_suffix in E as (pre & suf & -> & Hm).
    destruct (Htake id (MoreFacts.match_RequestId_at_is_id _ _ Hm)) as [Hl Ha].
    repeat split; try tauto. intros Hno. elim (Hno pre suf eq_refl).
    apply TokenFacts.match_RequestId_at_marker. congruence.
  - destruct (Str.search match_uuid_at msg) as [u|] eqn:E2.
    + apply MoreFacts.search_suffix in E2 as (pre & suf & -> & Hm).
      destruct (TokenFacts.match_uuid_at_inv _ _ Hm) as (rest & _ & Hu).
      destruct (Huuid u Hu) as [Hl Ha]. rewrite Hl.
      repeat split; auto; lia.
    + simpl. repeat split; auto; lia.
Qed.

(** A marker with a two-character id, and a message with a bare UUID. *)
Lemma extractRequestId_shape_witness :
  String.length (extractRequestId "END RequestId: ab") = 2%nat /\
  String.length
    (extractRequestId "12345678-1234-1234-1234-123456789abc done") = 6%nat.
Proof.
  split; [reflexivity|].
  apply (proj2 (proj2 (extractRequestId_shape _))).
  apply (TokenFacts.search_nowhere _ match_RequestId_at);
    [apply TokenFacts.match_RequestId_at_marker | reflexivity].
Defined.

(** X18. A continuation token that is the empty string ends the bounded
    fetch as a missing token does: the fetch returns with the events up to
    and including that page and asks for no further page. *)
Theorem fetchLogs_empty_token_ends {W : Type}
    (client : CloudWatchLogsClient W) (logGroup : string)
    (filter : option string) (start : Z) (w w' : W)
    (r : FilterLogEventsResponse) (fuel : nat) :
  send client (Spec.page_request logGroup filter start None) w = (Ok r, w') ->
  response_nextToken r = Some "" ->
  fetchLogs client logGroup filter start (S fuel) w
  = Fetched (Spec.page_events r) w'.
Proof.
  intros Hsend Htok. unfold fetchLogs.
  exact (fetchLogs_loop_empty_token client logGroup filter start fuel []
           None w r w' Hsend Htok).
Qed.

(** The second page of the source is never asked for. *)
Lemma fetchLogs_empty_token_ends_witness :
  fetchLogs Examples2.blank_token "g" None 0 5 tt
  = Fetched [Examples.ev 1 "a"] tt.
Proof.
  exact (fetchLogs_empty_token_ends Examples2.blank_token "g" None 0 tt tt
           Examples2.blank_page 4 eq_refl eq_refl).
Defined.

(** ** White space of the message body *)

Module SpaceFacts.

Lemma collapse_spaced_once (s : string) :
  forall b, Spec2.spaced_once b (collapse_spaces b s) = true.
Proof.
  induction s as [|c s IH]; intros b; [reflexivity|].
  cbn [collapse_spaces]. destruct (is_space c) eqn:Hc.
  - destruct b; [apply IH|].
    cbn [Spec2.spaced_once]. change (is_space " ") with true. cbn iota.
    now rewrite IH.
  - cbn [Spec2.spaced_once]. rewrite Hc. apply IH.
Qed.

Lemma trimStart_spaced_once (s : string) :
  forall b, Spec2.spaced_once b s = true ->
            Spec2.spaced_once true (trimStart s) = true.
Proof.
  induction s as [|c s IH]; intros b H; [reflexivity|].
  cbn [trimStart Spec2.spaced_once] in *. destruct (is_space c) eqn:Hc.
  - apply andb_true_iff in H as [_ H]. now apply (IH true).
  - cbn [Spec2.spaced_once]. now rewrite Hc.
Qed.

Lemma spaced_inside_starts (r : string) :
  r <> "" -> Spec2.spaced_inside false r = true ->
  Spec2.starts_with_text r = true.
Proof.
  destruct r as [|d r]; [congruence|]. intros _.
  cbn [Spec2.spaced_inside Spec2.starts_with_text].
  destruct (is_space d); [|reflexivity].
  rewrite andb_false_r. discriminate.
Qed.

Lemma spaced_inside_cons (b : bool) (c : ascii) (s : string) :
  Spec2.spaced_inside b (String c s)
  = if is_space c
    then Ascii.eqb c " " && b && Spec2.starts_with_text s
         && Spec2.spaced_inside false s
    else Spec2.spaced_inside true s.
Proof. reflexivity. Qed.

Lemma trimEnd_spaced_inside (s : string) :
  forall b, Spec2.spaced_once (negb b) s = true ->
            Spec2.spaced_inside b (trimEnd s) = true.
Proof.
  induction s as [|c s IH]; intros b H; [reflexivity|].
  cbn [trimEnd Spec2.spaced_once] in *. destruct (is_space c) eqn:Hc.
  - apply andb_true_iff in H as [H Hs]. apply andb_true_iff in H as [Hsp Hb].
    rewrite negb_involutive in Hb. subst b. specialize (IH false Hs).
    destruct (trimEnd s) as [|d r] eqn:E; [reflexivity|].
    assert (Hst : Spec2.starts_with_text (String d r) = true)
      by (apply spaced_inside_starts; [discriminate | exact IH]).
    rewrite spaced_inside_cons, Hc, Hsp, Hst, IH. reflexivity.
  - specialize (IH true H).
    destruct (trimEnd s) as [|d r] eqn:E; rewrite spaced_inside_cons, Hc;
      [reflexivity | exact IH].
Qed.

Lemma spaced_inside_spec (r : string) :
  forall b, Spec2.spaced_inside b r = true ->
  forall pre c post,
    r = pre ++ String c post -> is_space c = true ->
    c = " "%char /\ (pre <> "" \/ b = true) /\ post <> ""
    /\ Str.stops is_space post.
Proof.
  induction r as [|d r IH]; intros b H pre c post E Hc.
  - destruct pre; discriminate E.
  - cbn [Spec2.spaced_inside] in H. destruct pre as [|x pre]; simpl in E.
    + injection E as -> ->. rewrite Hc in H.
      repeat (apply andb_true_iff in H as [H ?]).
      apply Ascii.eqb_eq in H. repeat split; auto.
      * destruct post; [discriminate | discriminate].
      * destruct post as [|y post]; [exact I|]. simpl in *.
        now apply negb_true_iff.
    + injection E as -> ->.
      assert (Hr : Spec2.spaced_inside (negb (is_space x))
                     (pre ++ String c post) = true).
      { destruct (is_space x); [|exact H].
        now apply andb_true_iff in H as [_ H]. }
      destruct (IH _ Hr pre c post eq_refl Hc) as (H1 & _ & H3 & H4).
      repeat split; auto. left. discriminate.
Qed.

Lemma text_of_cons (c : ascii) (s : string) :
  Spec2.text_of (String c s)
  = if is_space c then Spec2.text_of s else c :: Spec2.text_of s.
Proof. unfold Spec2.text_of. simpl. now destruct (is_space c). Qed.

Lemma collapse_text (s : string) :
  forall b, Spec2.text_of (collapse_spaces b s) = Spec2.text_of s.
Proof.
  induction s as [|c s IH]; intros b; [reflexivity|].
  cbn [collapse_spaces]. rewrite (text_of_cons c s).
  destruct (is_space c) eqn:Hc.
  - destruct b; [apply IH|]. rewrite text_of_cons.
    change (is_space " ") with true. apply IH.
  - now rewrite text_of_cons, Hc, IH.
Qed.

Lemma trimStart_text (s : string) :
  Spec2.text_of (trimStart s) = Spec2.text_of s.
Proof.
  induction s as [|c s IH]; [reflexivity|].
  cbn [trimStart]. destruct (is_space c) eqn:Hc; [|reflexivity].
  now rewrite IH, text_of_cons, Hc.
Qed.

Lemma trimEnd_text (s : string) :
  Spec2.text_of (trimEnd s) = Spec2.text_of s.
Proof.
  induction s as [|c s IH]; [reflexivity|].
  cbn [trimEnd]. rewrite (text_of_cons c s), <- IH.
  destruct (trimEnd s) as [|d r].
  - destruct (is_space c) eqn:Hc; [reflexivity|].
    now rewrite text_of_cons, Hc.
  - now rewrite text_of_cons.
Qed.

End SpaceFacts.

(** X19. The white-space clean-up that ends the preparation of the message
    body, [.replace(/\s+/g, " ").trim()], leaves a single-spaced text:
    every white-space character of the result is a plain space between two
    characters that are not white space, so the result has no tab or line
    break, no two spaces in a row and no space at either end; and the
    characters that are not white space are those of the input, in the same
    order. *)
Theorem normalize_spaces_single_spaced (s : string) :
  Spec2.single_spaced (normalize_spaces s) /\
  Spec2.text_of (normalize_spaces s) = Spec2.text_of s.
Proof.
  unfold normalize_spaces, trim. split.
  - intros pre c post E Hc.
    assert (H : Spec2.spaced_inside false
                  (trimEnd (trimStart (collapse_spaces false s))) = true).
    { apply SpaceFacts.trimEnd_spaced_inside.
      apply (SpaceFacts.trimStart_spaced_once _ false).
      apply SpaceFacts.collapse_spaced_once. }
    destruct (SpaceFacts.spaced_inside_spec _ false H pre c post E Hc)
      as (H1 & [H2|H2] & H3 & H4); [|discriminate H2].
    repeat split; assumption.
  - now rewrite SpaceFacts.trimEnd_text, SpaceFacts.trimStart_text,
      SpaceFacts.collapse_text.
Qed.

(** A body with a tab, a run of spaces and spaces at both ends. *)
Lemma normalize_spaces_single_spaced_witness :
  normalize_spaces (" Task" ++ String (ascii_of_nat 9) "timed   out  ")
  = "Task timed out" /\
  Spec2.text_of
    (normalize_spaces (" Task" ++ String (ascii_of_nat 9) "timed   out  "))
  = list_ascii_of_string "Tasktimedout".
Proof.
  split; [reflexivity|].
  rewrite (proj2 (normalize_spaces_single_spaced _)). reflexivity.
Defined.
